(** * Console-Based Code Snippet Manager: a model of [snippet.js]

    The program keeps a JSON array of snippet records in one file of the
    user's home directory and offers four commands over it: [add],
    [search], [list] and [export].  This development embeds the program
    as Rocq functions and proves properties of the embedding.

    Conventions of the model.
    - A JavaScript string is the sequence of its code units; the model
      covers the code units below 256, one [ascii] each.
    - A JavaScript number is an integer [Z]; the model agrees with the
      doubles of the runtime on the safe integers, which is where every
      number computed by the program lies.  Number literals with a
      fraction or an exponent, and escapes of code units above 255, are
      outside the model: the parser does not accept them.
    - A value read from the backing file is a JSON value ([value]); the
      program is dynamically typed, so the operations act on [value] and
      raise [TypeError] where the runtime would.
    - Effects are explicit: an operation is a function from a [world]
      (the three files, the terminal, the clipboard, the pending user
      responses) to a result and a new world.  Writing a file always
      succeeds; the clock and the fuzzy matcher of the library are
      parameters.
    - The run without a command follows the text of the source: the
      help and the hint are printed.  A version of the command-line
      library that ends the process inside [program.parse] prints the
      help alone.
    - [ToString] of an object is [[object Object]]; an object of the
      backing file with a [toString] property of its own is outside
      the model.

    Layout: the model of the runtime and of the program; the notions
    used to state properties; examples; lemmas; the properties C1 to
    C10, and after them the further properties X1 to X22. *)

From Stdlib Require Import List String Ascii ZArith NArith Lia Bool Decimal DecimalZ Sorted.
Import ListNotations.

Local Open Scope string_scope.
Local Open Scope list_scope.
Local Open Scope Z_scope.

(** String concatenation, the [+] of the source on strings. *)
Infix "+++" := String.append (right associativity, at level 60).

(* ================================================================== *)
(** * Characters and strings *)
(* ================================================================== *)

Module Chars.

Definition dquote : ascii := "034"%char.
Definition backslash : ascii := "092"%char.
Definition LF : ascii := "010"%char.
Definition CR : ascii := "013"%char.
Definition TAB : ascii := "009"%char.
Definition BS : ascii := "008"%char.
Definition FF : ascii := "012"%char.
Definition VT : ascii := "011"%char.
Definition NBSP : ascii := "160"%char.
Definition SP : ascii := " "%char.

(** The one-character string. *)
Definition str1 (c : ascii) : string := String c EmptyString.

(** The line feed, written [\n] in the source. *)
Definition nl : string := str1 LF.

(** A text between double quotes, as in [`Snippet "${title}" added!`]. *)
Definition quoted (s : string) : string := String dquote (s +++ str1 dquote).

End Chars.
Import Chars.

(* ================================================================== *)
(** * JavaScript values *)
(* ================================================================== *)

(** The values that [JSON.parse] produces.  An object lists its own
    properties in property order. *)
Unset Elimination Schemes.
Inductive value : Type :=
| VNull
| VBool (b : bool)
| VNum (n : Z)
| VStr (s : string)
| VArr (items : list value)
| VObj (props : list (string * value)).
Set Elimination Schemes.

Definition object := list (string * value).

(** Induction over values, with the hypothesis available for every
    element of an array and every property value of an object. *)
Section ValueInd.
Variable P : value -> Prop.
Hypothesis Hnull : P VNull.
Hypothesis Hbool : forall b, P (VBool b).
Hypothesis Hnum : forall n, P (VNum n).
Hypothesis Hstr : forall s, P (VStr s).
Hypothesis Harr : forall items, Forall P items -> P (VArr items).
Hypothesis Hobj : forall props, Forall (fun kv => P (snd kv)) props -> P (VObj props).

Fixpoint value_ind (v : value) : P v :=
  match v with
  | VNull => Hnull
  | VBool b => Hbool b
  | VNum n => Hnum n
  | VStr s => Hstr s
  | VArr items =>
      Harr items
        ((fix all (l : list value) : Forall P l :=
            match l with
            | [] => Forall_nil _
            | x :: l' => Forall_cons x (value_ind x) (all l')
            end) items)
  | VObj props =>
      Hobj props
        ((fix all (l : list (string * value)) : Forall (fun kv => P (snd kv)) l :=
            match l with
            | [] => Forall_nil _
            | kv :: l' => Forall_cons kv (value_ind (snd kv)) (all l')
            end) props)
  end.
End ValueInd.

(* ================================================================== *)
(** * Objects: property lookup and definition *)
(* ================================================================== *)

Module Obj.

(** [o[k]] for an own property; [None] is [undefined]. *)
Fixpoint get (k : string) (o : object) : option value :=
  match o with
  | [] => None
  | (k', v) :: o' => if (k =? k')%string then Some v else get k o'
  end.

Definition has (k : string) (o : object) : bool :=
  match get k o with Some _ => true | None => false end.

(** Assignment to an existing property keeps its place in the order. *)
Fixpoint replace (k : string) (v : value) (o : object) : object :=
  match o with
  | [] => []
  | (k', v') :: o' =>
      if (k =? k')%string then (k', v) :: o' else (k', v') :: replace k v o'
  end.

(** Decimal digits of a string, most significant first. *)
Definition digit_of (c : ascii) : option N :=
  let n := N_of_ascii c in
  if ((48 <=? n) && (n <=? 57))%N then Some (n - 48)%N else None.

Fixpoint digits_value (s : string) (acc : N) : option N :=
  match s with
  | EmptyString => Some acc
  | String c s' =>
      match digit_of c with
      | Some d => digits_value s' (10 * acc + d)%N
      | None => None
      end
  end.

(** An array index is a canonical numeric string below 2^32 - 1: the
    runtime lists such keys first, in ascending numeric order. *)
Definition array_index (k : string) : option N :=
  match k with
  | EmptyString => None
  | String c rest =>
      if (c =? "0")%char && negb (rest =? EmptyString)%string then None
      else if (10 <? String.length k)%nat then None
      else match digits_value k 0 with
           | Some n => if (n <? 4294967295)%N then Some n else None
           | None => None
           end
  end.

(** Insertion of a new array-index key [i]: before the first property
    that is not an array index or has a larger index. *)
Fixpoint insert_index (i : N) (k : string) (v : value) (o : object) : object :=
  match o with
  | [] => [(k, v)]
  | (k', v') :: o' =>
      match array_index k' with
      | Some j => if (j <=? i)%N then (k', v') :: insert_index i k v o'
                  else (k, v) :: o
      | None => (k, v) :: o
      end
  end.

(** [o[k] = v] on an ordinary object. *)
Definition set (k : string) (v : value) (o : object) : object :=
  if has k o then replace k v o
  else match array_index k with
       | Some i => insert_index i k v o
       | None => o ++ [(k, v)]
       end.

(** [{...o, ...src}]: the properties of [src] are assigned in order. *)
Definition spread (src : object) (o : object) : object :=
  fold_left (fun acc kv => set (fst kv) (snd kv) acc) src o.

(** The object that results from defining the listed properties in
    order on an empty object. *)
Definition of_entries (kvs : list (string * value)) : object := spread kvs [].

End Obj.

(** The canonical form of a value: every object is the result of
    defining its properties in order.  Values of the runtime are in
    canonical form. *)
Fixpoint normalize (v : value) : value :=
  match v with
  | VArr items => VArr (map normalize items)
  | VObj props =>
      VObj (Obj.of_entries (map (fun kv => (fst kv, normalize (snd kv))) props))
  | _ => v
  end.

(* ================================================================== *)
(** * JSON text: [JSON.stringify] with two spaces, and [JSON.parse] *)
(* ================================================================== *)

Module JSON.

(** ** Printing

    The printer writes in front of a continuation [k], so that
    [print ind v k] is the text of [v] at indentation [ind] followed by
    [k]. *)

Fixpoint spaces (n : nat) (k : string) : string :=
  match n with
  | O => k
  | S n' => String SP (spaces n' k)
  end.

Definition hex_digit (n : N) : ascii :=
  if (n <? 10)%N then ascii_of_N (48 + n) else ascii_of_N (87 + n).

(** One code unit of a string literal: the two-character escapes, the
    [\u00XX] form for the other control characters, the unit itself
    otherwise. *)
Definition escape (c : ascii) (k : string) : string :=
  if (c =? dquote)%char then String backslash (String dquote k)
  else if (c =? backslash)%char then String backslash (String backslash k)
  else if (c =? BS)%char then String backslash (String "b" k)
  else if (c =? FF)%char then String backslash (String "f" k)
  else if (c =? LF)%char then String backslash (String "n" k)
  else if (c =? CR)%char then String backslash (String "r" k)
  else if (c =? TAB)%char then String backslash (String "t" k)
  else if (N_of_ascii c <? 32)%N then
    String backslash (String "u" (String "0" (String "0"
      (String (hex_digit (N_of_ascii c / 16))
         (String (hex_digit (N_of_ascii c mod 16)) k)))))
  else String c k.

Fixpoint escape_all (s : string) (k : string) : string :=
  match s with
  | EmptyString => k
  | String c s' => escape c (escape_all s' k)
  end.

Definition quote (s : string) (k : string) : string :=
  String dquote (escape_all s (String dquote k)).

Fixpoint print_uint (u : uint) (k : string) : string :=
  match u with
  | Nil => k
  | D0 u' => String "0" (print_uint u' k)
  | D1 u' => String "1" (print_uint u' k)
  | D2 u' => String "2" (print_uint u' k)
  | D3 u' => String "3" (print_uint u' k)
  | D4 u' => String "4" (print_uint u' k)
  | D5 u' => String "5" (print_uint u' k)
  | D6 u' => String "6" (print_uint u' k)
  | D7 u' => String "7" (print_uint u' k)
  | D8 u' => String "8" (print_uint u' k)
  | D9 u' => String "9" (print_uint u' k)
  end.

Definition print_int (i : Decimal.int) (k : string) : string :=
  match i with
  | Pos u => print_uint u k
  | Neg u => String "-" (print_uint u k)
  end.

(** The decimal text of an integer, [Number.prototype.toString]. *)
Definition print_number (n : Z) (k : string) : string :=
  print_int (Z.to_int n) k.

Fixpoint print (ind : nat) (v : value) (k : string) {struct v} : string :=
  match v with
  | VNull => "null" +++ k
  | VBool true => "true" +++ k
  | VBool false => "false" +++ k
  | VNum n => print_number n k
  | VStr s => quote s k
  | VArr [] => "[]" +++ k
  | VArr (x :: xs) =>
      String "[" (String LF (spaces (2 + ind) (print (2 + ind) x
        ((fix rest (l : list value) : string :=
            match l with
            | [] => String LF (spaces ind (String "]" k))
            | y :: l' =>
                String "," (String LF (spaces (2 + ind)
                  (print (2 + ind) y (rest l'))))
            end) xs))))
  | VObj [] => "{}" +++ k
  | VObj ((key, x) :: ps) =>
      String "{" (String LF (spaces (2 + ind) (quote key (String ":" (String SP
        (print (2 + ind) x
          ((fix rest (l : list (string * value)) : string :=
              match l with
              | [] => String LF (spaces ind (String "}" k))
              | (key', y) :: l' =>
                  String "," (String LF (spaces (2 + ind)
                    (quote key' (String ":" (String SP
                      (print (2 + ind) y (rest l')))))))
              end) ps)))))))
  end.

(** [JSON.stringify(v, null, 2)]. *)
Definition stringify (v : value) : string := print 0 v EmptyString.

(** ** Parsing *)

Definition is_ws (c : ascii) : bool :=
  ((c =? SP) || (c =? LF) || (c =? CR) || (c =? TAB))%char.

Fixpoint skip_ws (s : string) : string :=
  match s with
  | EmptyString => s
  | String c r => if is_ws c then skip_ws r else s
  end.

Fixpoint strip_prefix (p s : string) : option string :=
  match p with
  | EmptyString => Some s
  | String a p' =>
      match s with
      | EmptyString => None
      | String b s' => if (a =? b)%char then strip_prefix p' s' else None
      end
  end.

Definition hex_val (c : ascii) : option N :=
  let n := N_of_ascii c in
  if ((48 <=? n) && (n <=? 57))%N then Some (n - 48)%N
  else if ((97 <=? n) && (n <=? 102))%N then Some (n - 87)%N
  else if ((65 <=? n) && (n <=? 70))%N then Some (n - 55)%N
  else None.

(** The code unit of [\uXXXX]; [None] for a malformed escape, and for a
    unit outside the modelled strings. *)
Definition hex4 (h1 h2 h3 h4 : ascii) : option ascii :=
  match hex_val h1, hex_val h2, hex_val h3, hex_val h4 with
  | Some a, Some b, Some c, Some d =>
      let n := (((a * 16 + b) * 16 + c) * 16 + d)%N in
      if (n <? 256)%N then Some (ascii_of_N n) else None
  | _, _, _, _ => None
  end.

Definition simple_escape (e : ascii) : option ascii :=
  if (e =? dquote)%char then Some dquote
  else if (e =? backslash)%char then Some backslash
  else if (e =? "/")%char then Some "/"%char
  else if (e =? "b")%char then Some BS
  else if (e =? "f")%char then Some FF
  else if (e =? "n")%char then Some LF
  else if (e =? "r")%char then Some CR
  else if (e =? "t")%char then Some TAB
  else None.

Definition push (c : ascii) (r : option (string * string)) : option (string * string) :=
  match r with
  | Some (s, rest) => Some (String c s, rest)
  | None => None
  end.

(** The characters of a string literal after its opening quote, up to
    and including the closing quote. *)
Fixpoint parse_string (s : string) : option (string * string) :=
  match s with
  | EmptyString => None
  | String c r =>
      if (c =? dquote)%char then Some (EmptyString, r)
      else if (c =? backslash)%char then
        match r with
        | EmptyString => None
        | String e r1 =>
            match simple_escape e with
            | Some c' => push c' (parse_string r1)
            | None =>
                if (e =? "u")%char then
                  match r1 with
                  | String h1 (String h2 (String h3 (String h4 r2))) =>
                      match hex4 h1 h2 h3 h4 with
                      | Some c' => push c' (parse_string r2)
                      | None => None
                      end
                  | _ => None
                  end
                else None
            end
        end
      else if (N_of_ascii c <? 32)%N then None
      else push c (parse_string r)
  end.

Definition digit_cons (c : ascii) : option (uint -> uint) :=
  if (c =? "0")%char then Some D0
  else if (c =? "1")%char then Some D1
  else if (c =? "2")%char then Some D2
  else if (c =? "3")%char then Some D3
  else if (c =? "4")%char then Some D4
  else if (c =? "5")%char then Some D5
  else if (c =? "6")%char then Some D6
  else if (c =? "7")%char then Some D7
  else if (c =? "8")%char then Some D8
  else if (c =? "9")%char then Some D9
  else None.

(** The longest prefix of decimal digits. *)
Fixpoint parse_digits (s : string) : uint * string :=
  match s with
  | EmptyString => (Nil, s)
  | String c r =>
      match digit_cons c with
      | Some d => let (u, r') := parse_digits r in (d u, r')
      | None => (Nil, s)
      end
  end.

Definition starts_fraction (s : string) : bool :=
  match s with
  | String c _ => ((c =? ".") || (c =? "e") || (c =? "E"))%char
  | EmptyString => false
  end.

(** An integer literal.  A literal with leading zeros is not JSON; a
    literal with a fraction or an exponent denotes a number outside the
    modelled integers and is not accepted either. *)
Definition parse_number (s : string) : option (value * string) :=
  let (neg, s1) :=
    match s with
    | String c r => if (c =? "-")%char then (true, r) else (false, s)
    | EmptyString => (false, s)
    end in
  let (u, r) := parse_digits s1 in
  match u with
  | Nil => None
  | D0 (D0 _ | D1 _ | D2 _ | D3 _ | D4 _ | D5 _ | D6 _ | D7 _ | D8 _ | D9 _) => None
  | _ =>
      if starts_fraction r then None
      else Some (VNum (Z.of_int (if neg then Neg u else Pos u)), r)
  end.

Definition starts_number (c : ascii) : bool :=
  match digit_cons c with
  | Some _ => true
  | None => (c =? "-")%char
  end.

Fixpoint parse_value (fuel : nat) (s : string) {struct fuel} : option (value * string) :=
  match fuel with
  | O => None
  | S fuel' =>
      match skip_ws s with
      | EmptyString => None
      | String c r =>
          if starts_number c then parse_number (String c r)
          else if (c =? dquote)%char then
            match parse_string r with
            | Some (str, r') => Some (VStr str, r')
            | None => None
            end
          else if (c =? "n")%char then
            match strip_prefix "ull" r with
            | Some r' => Some (VNull, r')
            | None => None
            end
          else if (c =? "t")%char then
            match strip_prefix "rue" r with
            | Some r' => Some (VBool true, r')
            | None => None
            end
          else if (c =? "f")%char then
            match strip_prefix "alse" r with
            | Some r' => Some (VBool false, r')
            | None => None
            end
          else if (c =? "[")%char then
            match skip_ws r with
            | EmptyString => None
            | String c' r' =>
                if (c' =? "]")%char then Some (VArr [], r')
                else parse_elements fuel' [] r
            end
          else if (c =? "{")%char then
            match skip_ws r with
            | EmptyString => None
            | String c' r' =>
                if (c' =? "}")%char then Some (VObj [], r')
                else parse_members fuel' [] r
            end
          else None
      end
  end

(** The elements of a non-empty array, after [[] or a comma; [acc] holds
    the elements read so far, last first. *)
with parse_elements (fuel : nat) (acc : list value) (s : string) {struct fuel}
  : option (value * string) :=
  match fuel with
  | O => None
  | S fuel' =>
      match parse_value fuel' s with
      | None => None
      | Some (v, r) =>
          match skip_ws r with
          | EmptyString => None
          | String c r' =>
              if (c =? ",")%char then parse_elements fuel' (v :: acc) r'
              else if (c =? "]")%char then Some (VArr (List.rev (v :: acc)), r')
              else None
          end
      end
  end

(** The members of a non-empty object, after [{] or a comma; [acc] is
    the object built so far: a repeated name assigns again. *)
with parse_members (fuel : nat) (acc : object) (s : string) {struct fuel}
  : option (value * string) :=
  match fuel with
  | O => None
  | S fuel' =>
      match skip_ws s with
      | EmptyString => None
      | String c r =>
          if (c =? dquote)%char then
            match parse_string r with
            | None => None
            | Some (key, r1) =>
                match skip_ws r1 with
                | EmptyString => None
                | String c1 r2 =>
                    if (c1 =? ":")%char then
                      match parse_value fuel' r2 with
                      | None => None
                      | Some (v, r3) =>
                          match skip_ws r3 with
                          | EmptyString => None
                          | String c3 r4 =>
                              if (c3 =? ",")%char
                              then parse_members fuel' (Obj.set key v acc) r4
                              else if (c3 =? "}")%char
                              then Some (VObj (Obj.set key v acc), r4)
                              else None
                          end
                      end
                    else None
                end
            end
          else None
      end
  end.

(** [JSON.parse]: one value, surrounded by white space only.  [None] is
    the [SyntaxError] of the runtime.  Every call of the parser is paid
    for by a character of the text, or follows one that is, so twice the
    length of the text is fuel enough. *)
Definition parse (s : string) : option value :=
  match parse_value (2 + 2 * String.length s) s with
  | Some (v, r) =>
      match skip_ws r with
      | EmptyString => Some v
      | String _ _ => None
      end
  | None => None
  end.

End JSON.

(* ================================================================== *)
(** * The built-in operations the program relies on *)
(* ================================================================== *)

Module Runtime.

(** ** Strings *)

(** [String.prototype.toLowerCase] on the code units below 256: the
    letters [A-Z] and the accented capitals [U+00C0 - U+00DE], the
    multiplication sign excepted. *)
Definition lower_char (c : ascii) : ascii :=
  let n := N_of_ascii c in
  if ((65 <=? n) && (n <=? 90) ||
      (192 <=? n) && (n <=? 222) && negb (n =? 215))%N
  then ascii_of_N (n + 32) else c.

Fixpoint toLowerCase (s : string) : string :=
  match s with
  | EmptyString => EmptyString
  | String c r => String (lower_char c) (toLowerCase r)
  end.

(** White space and line terminators, as [trim] and [parseInt] see
    them. *)
Definition is_space (c : ascii) : bool :=
  ((c =? TAB) || (c =? LF) || (c =? VT) || (c =? FF) || (c =? CR)
   || (c =? SP) || (c =? NBSP))%char.

Fixpoint trimStart (s : string) : string :=
  match s with
  | EmptyString => EmptyString
  | String c r => if is_space c then trimStart r else s
  end.

Fixpoint trimEnd (s : string) : string :=
  match s with
  | EmptyString => EmptyString
  | String c r =>
      match trimEnd r with
      | EmptyString => if is_space c then EmptyString else String c EmptyString
      | r' => String c r'
      end
  end.

(** [String.prototype.trim]. *)
Definition trim (s : string) : string := trimEnd (trimStart s).

(** [s.split(sep)] for a one-character separator. *)
Fixpoint split (sep : ascii) (s : string) : list string :=
  match s with
  | EmptyString => [EmptyString]
  | String c r =>
      if (c =? sep)%char then EmptyString :: split sep r
      else match split sep r with
           | t :: ts => String c t :: ts
           | [] => [String c EmptyString]
           end
  end.

(** The elements separated by [sep], [Array.prototype.join] on strings. *)
Fixpoint join (sep : string) (l : list string) : string :=
  match l with
  | [] => EmptyString
  | [x] => x
  | x :: l' => x +++ sep +++ join sep l'
  end.

(** ** Conversions *)

(** [ToString] of a value. *)
Fixpoint to_string (v : value) : string :=
  match v with
  | VNull => "null"
  | VBool true => "true"
  | VBool false => "false"
  | VNum n => JSON.print_number n EmptyString
  | VStr s => s
  | VArr items =>
      join ","
        (map (fun x => match x with VNull => EmptyString | _ => to_string x end)
             items)
  | VObj _ => "[object Object]"
  end.

(** The text of [${e}] in a template, [e] possibly [undefined]. *)
Definition show (e : option value) : string :=
  match e with
  | Some v => to_string v
  | None => "undefined"
  end.

(** [ToBoolean]. *)
Definition truthy (e : option value) : bool :=
  match e with
  | None | Some VNull => false
  | Some (VBool b) => b
  | Some (VNum n) => negb (n =? 0)
  | Some (VStr s) => negb (s =? EmptyString)%string
  | Some (VArr _) | Some (VObj _) => true
  end.

(** [a || b]. *)
Definition or_else (a b : option value) : option value :=
  if truthy a then a else b.

(** ** [parseInt] without a radix *)

Definition radix_digit (radix : Z) (c : ascii) : option Z :=
  match JSON.hex_val c with
  | Some d => if (Z.of_N d <? radix) then Some (Z.of_N d) else None
  | None => None
  end.

(** The value of the longest prefix of digits; [None] when there is no
    digit at all. *)
Fixpoint digits_prefix (radix : Z) (s : string) (acc : option Z) : option Z :=
  match s with
  | EmptyString => acc
  | String c r =>
      match radix_digit radix c with
      | Some d =>
          digits_prefix radix r
            (Some (radix * match acc with Some a => a | None => 0 end + d))
      | None => acc
      end
  end.

(** [parseInt(s)]; [None] is [NaN]. *)
Definition parseInt (s : string) : option Z :=
  let s1 := trimStart s in
  let (negative, s2) :=
    match s1 with
    | String c r =>
        if (c =? "-")%char then (true, r)
        else if (c =? "+")%char then (false, r)
        else (false, s1)
    | EmptyString => (false, s1)
    end in
  let (radix, s3) :=
    match s2 with
    | String c (String x r) =>
        if ((c =? "0") && ((x =? "x") || (x =? "X")))%char then (16, r)
        else (10, s2)
    | _ => (10, s2)
    end in
  match digits_prefix radix s3 None with
  | Some n => Some (if negative then - n else n)
  | None => None
  end.

(** [v === n] for the result [n] of [parseInt]. *)
Definition strict_eq_number (e : option value) (n : option Z) : bool :=
  match e, n with
  | Some (VNum m), Some n' => m =? n'
  | _, _ => false
  end.

End Runtime.
Import Runtime.

(* ================================================================== *)
(** * The world and the effects *)
(* ================================================================== *)

Inductive file : Type :=
| Absent
| Unreadable
| Content (text : string).

(** The three files the program touches. *)
Inductive path : Type :=
| SNIPPET_FILE          (* ~/.snippets.json *)
| EXPORT_JSON           (* ./snippets-export.json *)
| EXPORT_MARKDOWN.      (* ./snippets-export.md *)

Inductive colour : Type := plain | green | yellow | cyan | red.

(** What appears on the terminal. *)
Inductive output : Type :=
| Log (c : colour) (text : string)   (* console.log, through chalk or not *)
| Ask (message : string)             (* a question is displayed *)
| Rejected (message : string)        (* an answer failed validation *)
| Help.                              (* the generated help text *)

Record world : Type := mkWorld {
  snippet_file : file;
  export_json : file;
  export_markdown : file;
  terminal : list output;
  clipboard : option string;
  responses : list string   (* what the user will answer, in order *)
}.

Inductive error : Type :=
| ENOENT | EACCES | SyntaxError | TypeError | InputClosed.

Inductive result (A : Type) : Type :=
| Ok (a : A)
| Throw (e : error).
Arguments Ok {A} a.
Arguments Throw {A} e.

(** A computation with effects on the world, which returns or throws. *)
Definition M (A : Type) : Type := world -> result A * world.

Definition ret {A} (a : A) : M A := fun w => (Ok a, w).
Definition throw {A} (e : error) : M A := fun w => (Throw e, w).
Definition bind {A B} (m : M A) (f : A -> M B) : M B :=
  fun w => match m w with
           | (Ok a, w') => f a w'
           | (Throw e, w') => (Throw e, w')
           end.
Definition try_catch {A} (m : M A) (handler : M A) : M A :=
  fun w => match m w with
           | (Ok a, w') => (Ok a, w')
           | (Throw _, w') => handler w'
           end.
Definition lift {A} (r : result A) : M A := fun w => (r, w).

Notation "x <- m ;; k" := (bind m (fun x => k))
  (at level 61, m at next level, right associativity).
Notation "m ;; k" := (bind m (fun _ => k))
  (at level 61, right associativity).

Definition file_at (p : path) (w : world) : file :=
  match p with
  | SNIPPET_FILE => snippet_file w
  | EXPORT_JSON => export_json w
  | EXPORT_MARKDOWN => export_markdown w
  end.

Definition set_file (p : path) (f : file) (w : world) : world :=
  match p with
  | SNIPPET_FILE =>
      mkWorld f (export_json w) (export_markdown w) (terminal w) (clipboard w) (responses w)
  | EXPORT_JSON =>
      mkWorld (snippet_file w) f (export_markdown w) (terminal w) (clipboard w) (responses w)
  | EXPORT_MARKDOWN =>
      mkWorld (snippet_file w) (export_json w) f (terminal w) (clipboard w) (responses w)
  end.

Definition emit (o : output) (w : world) : world :=
  mkWorld (snippet_file w) (export_json w) (export_markdown w)
          (terminal w ++ [o]) (clipboard w) (responses w).

Definition set_clipboard (s : string) (w : world) : world :=
  mkWorld (snippet_file w) (export_json w) (export_markdown w)
          (terminal w) (Some s) (responses w).

Definition set_responses (rs : list string) (w : world) : world :=
  mkWorld (snippet_file w) (export_json w) (export_markdown w)
          (terminal w) (clipboard w) rs.

(** ** fs-extra *)

(** [fs.readJson(p)]: the parsed content of the file. *)
Definition readJson (p : path) : M value :=
  fun w => match file_at p w with
           | Absent => (Throw ENOENT, w)
           | Unreadable => (Throw EACCES, w)
           | Content text =>
               match JSON.parse text with
               | Some v => (Ok v, w)
               | None => (Throw SyntaxError, w)
               end
           end.

(** [fs.writeFile(p, text)]: the file is replaced.  Writes are taken to
    succeed. *)
Definition writeFile (p : path) (text : string) : M unit :=
  fun w => (Ok tt, set_file p (Content text) w).

(** [fs.writeJson(p, v, { spaces: 2 })]: the indented text of [v] and a
    final line feed. *)
Definition writeJson (p : path) (v : value) : M unit :=
  writeFile p (JSON.print 0 v nl).

(** ** console and clipboard *)

Definition console_log (c : colour) (text : string) : M unit :=
  fun w => (Ok tt, emit (Log c text) w).

(** [clipboardy.writeSync(text)]: only a string is accepted. *)
Definition clipboardy_writeSync (text : option value) : M unit :=
  match text with
  | Some (VStr s) => fun w => (Ok tt, set_clipboard s w)
  | _ => throw TypeError
  end.

(** ** Property access and array methods on values *)

(** [v.k] for the property names the program reads on a record, none of
    which is inherited: an own property of an object, [undefined] on the
    other values, a [TypeError] on [null]. *)
Definition prop (k : string) (v : value) : result (option value) :=
  match v with
  | VNull => Throw TypeError
  | VObj o => Ok (Obj.get k o)
  | _ => Ok None
  end.

(** [e.toLowerCase()]: defined on strings only. *)
Definition call_toLowerCase (e : option value) : result string :=
  match e with
  | Some (VStr s) => Ok (toLowerCase s)
  | _ => Throw TypeError
  end.

(** [e.join(sep)]: defined on arrays only; [null] elements give the
    empty text. *)
Definition call_join (e : option value) (sep : string) : result string :=
  match e with
  | Some (VArr items) =>
      Ok (join sep
            (map (fun x => match x with VNull => EmptyString | _ => to_string x end)
                 items))
  | _ => Throw TypeError
  end.

(** [items.filter(f)], where the callback may throw. *)
Fixpoint filter_items (f : value -> result bool) (items : list value)
  : result (list value) :=
  match items with
  | [] => Ok []
  | x :: l =>
      match f x with
      | Throw e => Throw e
      | Ok b =>
          match filter_items f l with
          | Throw e => Throw e
          | Ok l' => Ok (if b then x :: l' else l')
          end
      end
  end.

(** [v.filter(f)]: defined on arrays only. *)
Definition call_filter (v : value) (f : value -> result bool) : result value :=
  match v with
  | VArr items =>
      match filter_items f items with
      | Ok l => Ok (VArr l)
      | Throw e => Throw e
      end
  | _ => Throw TypeError
  end.

(** [items.find(f)]: the first element that satisfies [f]. *)
Fixpoint find_item (f : value -> result bool) (items : list value)
  : result (option value) :=
  match items with
  | [] => Ok None
  | x :: l =>
      match f x with
      | Throw e => Throw e
      | Ok true => Ok (Some x)
      | Ok false => find_item f l
      end
  end.

Definition call_find (v : value) (f : value -> result bool) : result (option value) :=
  match v with
  | VArr items => find_item f items
  | _ => Throw TypeError
  end.

(** [items.forEach(f)]. *)
Fixpoint for_each (f : value -> M unit) (items : list value) : M unit :=
  match items with
  | [] => ret tt
  | x :: l => f x ;; for_each f l
  end.

Definition call_forEach (v : value) (f : value -> M unit) : M unit :=
  match v with
  | VArr items => for_each f items
  | _ => throw TypeError
  end.

(** [!v.length]. *)
Definition length_is_falsy (v : value) : result bool :=
  match v with
  | VNull => Throw TypeError
  | VArr items => Ok (match items with [] => true | _ => false end)
  | VStr s => Ok (s =? EmptyString)%string
  | VObj o => Ok (negb (truthy (Obj.get "length" o)))
  | VNum _ | VBool _ => Ok true
  end.

(** ** inquirer *)

Inductive prompt_type : Type := type_input | type_editor.

(** The result of a [validate] callback: [true], or the message to show. *)
Inductive validation : Type :=
| Valid
| Invalid (message : string).

Record question : Type := mkQuestion {
  qtype : prompt_type;
  qname : string;
  qmessage : string;
  qdefault : option string;
  qfilter : option (string -> value);
  qvalidate : option (value -> validation)
}.

(** One question is asked until an answer passes validation.  An empty
    answer stands for the default when there is one; the filter is
    applied before the validation.  When the user has nothing more to
    say, the prompt cannot complete. *)
Fixpoint answer_loop (q : question) (rs : list string) (w : world)
  : result value * world :=
  match rs with
  | [] => (Throw InputClosed, set_responses [] w)
  | r :: rs' =>
      let raw :=
        if (r =? EmptyString)%string
        then match qdefault q with Some d => d | None => EmptyString end
        else r in
      let v := match qfilter q with Some f => f raw | None => VStr raw end in
      match match qvalidate q with Some check => check v | None => Valid end with
      | Valid => (Ok v, set_responses rs' w)
      | Invalid m => answer_loop q rs' (emit (Rejected m) w)
      end
  end.

Definition ask (q : question) : M value :=
  fun w => answer_loop q (responses w) (emit (Ask (qmessage q)) w).

Fixpoint prompt_all (qs : list question) (answers : object) : M object :=
  match qs with
  | [] => ret answers
  | q :: qs' => v <- ask q ;; prompt_all qs' (Obj.set (qname q) v answers)
  end.

(** [inquirer.prompt(questions)]: the answers, by question name. *)
Definition inquirer_prompt (qs : list question) : M object := prompt_all qs [].

(* ================================================================== *)
(** * The program *)
(* ================================================================== *)

(** ** Repository *)

Definition loadSnippets : M value :=
  try_catch (readJson SNIPPET_FILE) (ret (VArr [])).

Definition saveSnippets (snippets : value) : M unit :=
  writeJson SNIPPET_FILE snippets ;;
  console_log green "Snippets saved!".

(** ** Add *)

(** [input => (input ? true : 'Title is required')] *)
Definition validate_title (v : value) : validation :=
  if truthy (Some v) then Valid else Invalid "Title is required".

(** [input => input.split(',').map(tag => tag.trim()).filter(tag => tag)] *)
Definition tags_filter (input : string) : list string :=
  filter (fun tag => truthy (Some (VStr tag)))
         (map (fun tag => trim tag) (split "," input)).

Definition title_question : question :=
  mkQuestion type_input "title" "Snippet title:" None None (Some validate_title).

(** The literal gives [type] twice; the later value, [editor], stands. *)
Definition code_question : question :=
  mkQuestion type_editor "code" "Enter code (press Enter twice to finish):"
             None None None.

Definition language_question : question :=
  mkQuestion type_input "language" "Language (e.g., javascript, python):"
             (Some "javascript") None None.

Definition tags_question : question :=
  mkQuestion type_input "tags" "Tags (comma-separated, e.g., react, api):"
             None (Some (fun s => VArr (map VStr (tags_filter s)))) None.

Definition category_question : question :=
  mkQuestion type_input "category" "Category (e.g., React, Node.js):"
             (Some "General") None None.

Definition description_question : question :=
  mkQuestion type_input "description" "Description (optional):" None None None.

Definition add_questions : list question :=
  [ title_question; code_question; language_question; tags_question;
    category_question; description_question ].

(** The record that [add] builds:
    [{ id: snippets.length + 1, ...answers, createdAt: now }]. *)
Definition new_record (count : nat) (answers : object) (now : string) : value :=
  VObj (Obj.set "createdAt" (VStr now)
          (Obj.spread answers
             (Obj.set "id" (VNum (Z.of_nat count + 1)) []))).

(** [now] is the text of [new Date().toISOString()]. *)
Definition addSnippet (now : string) : M unit :=
  answers <- inquirer_prompt add_questions ;;
  snippets <- loadSnippets ;;
  match snippets with
  | VArr items =>
      saveSnippets (VArr (items ++ [new_record (List.length items) answers now])) ;;
      console_log green
        ("Snippet " +++ quoted (show (Obj.get "title" answers)) +++ " added!")
  | _ => throw TypeError   (* no [push] to call *)
  end.

(** ** The lines printed for a record *)

Definition headline (snippet : value) : M unit :=
  id <- lift (prop "id" snippet) ;;
  title <- lift (prop "title" snippet) ;;
  language <- lift (prop "language" snippet) ;;
  console_log cyan
    ("[" +++ show id +++ "] " +++ show title +++ " (" +++ show language +++ ")").

Definition category_line (snippet : value) : M unit :=
  category <- lift (prop "category" snippet) ;;
  console_log plain ("  Category: " +++ show category).

Definition tags_line (snippet : value) : M unit :=
  tags <- lift (prop "tags" snippet) ;;
  joined <- lift (call_join tags ", ") ;;
  console_log plain ("  Tags: " +++ joined).

(** ** Search *)

Record fuse_options : Type := mkFuseOptions {
  keys : list string;
  threshold_percent : Z
}.

Definition search_options : fuse_options :=
  mkFuseOptions ["title"; "code"; "tags"; "description"; "language"; "category"]
                30 (* threshold: 0.3 *).

Definition copy_question : question :=
  mkQuestion type_input "copyId"
    "Enter snippet ID to copy to clipboard (or press Enter to skip):"
    None None None.

Section Search.

(** [new Fuse(snippets, options).search(query).map(result => result.item)]:
    the fuzzy matching of the library, left abstract. *)
Variable fuse_search : value -> fuse_options -> string -> result (list value).

Definition print_result (snippet : value) : M unit :=
  headline snippet ;;
  category_line snippet ;;
  tags_line snippet ;;
  description <- lift (prop "description" snippet) ;;
  console_log plain
    ("  Description: " +++ show (or_else description (Some (VStr "None")))) ;;
  code <- lift (prop "code" snippet) ;;
  console_log plain ("  Code:" +++ nl +++ show code) ;;
  console_log plain "---".

Definition searchSnippets (query : string) : M unit :=
  snippets <- loadSnippets ;;
  results <- lift (fuse_search snippets search_options query) ;;
  match results with
  | [] => console_log yellow "No snippets found."
  | _ =>
      for_each print_result results ;;
      answers <- inquirer_prompt [copy_question] ;;
      let copyId := Obj.get "copyId" answers in
      if truthy copyId then
        snippet <- lift (call_find snippets (fun s =>
                     match prop "id" s with
                     | Ok id => Ok (strict_eq_number id (parseInt (show copyId)))
                     | Throw e => Throw e
                     end)) ;;
        if truthy snippet then
          code <- lift (match snippet with
                        | Some s => prop "code" s
                        | None => Throw TypeError
                        end) ;;
          clipboardy_writeSync code ;;
          title <- lift (match snippet with
                         | Some s => prop "title" s
                         | None => Throw TypeError
                         end) ;;
          console_log green
            ("Snippet " +++ quoted (show title) +++ " copied to clipboard!")
        else console_log red "Invalid snippet ID."
      else ret tt
  end.

End Search.

(** ** List *)

Record list_options : Type := mkListOptions {
  lang : option string;
  category : option string
}.

(** A filter of [list]: records whose property [key], in lower case, is
    the wanted text in lower case. *)
Definition same_ignoring_case (key : string) (wanted : string) (s : value)
  : result bool :=
  match prop key s with
  | Throw e => Throw e
  | Ok e =>
      match call_toLowerCase e with
      | Throw e' => Throw e'
      | Ok text => Ok (text =? toLowerCase wanted)%string
      end
  end.

Definition option_value (o : option string) : option value :=
  match o with
  | Some s => Some (VStr s)
  | None => None
  end.

Definition listSnippets (options : list_options) : M unit :=
  snippets <- loadSnippets ;;
  let filtered := snippets in
  filtered <-
    (if truthy (option_value (lang options)) then
       lift (call_filter filtered
               (same_ignoring_case "language"
                  (match lang options with Some l => l | None => EmptyString end)))
     else ret filtered) ;;
  filtered <-
    (if truthy (option_value (category options)) then
       lift (call_filter filtered
               (same_ignoring_case "category"
                  (match category options with Some c => c | None => EmptyString end)))
     else ret filtered) ;;
  empty <- lift (length_is_falsy filtered) ;;
  if (empty : bool) then console_log yellow "No snippets found."
  else
    call_forEach filtered (fun snippet =>
      headline snippet ;;
      category_line snippet ;;
      tags_line snippet ;;
      console_log plain "---").

(** ** Export *)

(** The text that one record adds to the markdown document. *)
Definition markdown_section (snippet : value) (markdown : string) : result string :=
  match prop "title" snippet with
  | Throw e => Throw e
  | Ok title =>
  let markdown := markdown +++ "## " +++ show title +++ nl in
  match prop "language" snippet with
  | Throw e => Throw e
  | Ok language =>
  let markdown := markdown +++ "- **Language**: " +++ show language +++ nl in
  match prop "category" snippet with
  | Throw e => Throw e
  | Ok category =>
  let markdown := markdown +++ "- **Category**: " +++ show category +++ nl in
  match prop "tags" snippet with
  | Throw e => Throw e
  | Ok tags =>
  match call_join tags ", " with
  | Throw e => Throw e
  | Ok joined =>
  let markdown := markdown +++ "- **Tags**: " +++ joined +++ nl in
  match prop "description" snippet with
  | Throw e => Throw e
  | Ok description =>
  let markdown :=
    markdown +++ "- **Description**: "
             +++ show (or_else description (Some (VStr "None"))) +++ nl in
  match prop "code" snippet with
  | Throw e => Throw e
  | Ok code =>
  Ok (markdown +++ ("```" +++ show language +++ nl +++ show code +++ nl
                    +++ "```" +++ nl +++ nl))
  end end end end end end end.

(** The loop [snippets.forEach(snippet => { markdown += ... })]. *)
Fixpoint markdown_loop (items : list value) (markdown : string) : result string :=
  match items with
  | [] => Ok markdown
  | snippet :: l =>
      match markdown_section snippet markdown with
      | Ok markdown' => markdown_loop l markdown'
      | Throw e => Throw e
      end
  end.

Definition exportSnippets (format : string) : M unit :=
  snippets <- loadSnippets ;;
  if (format =? "json")%string then
    writeJson EXPORT_JSON snippets ;;
    console_log green "Snippets exported to snippets-export.json"
  else if (format =? "markdown")%string then
    let markdown := "# Code Snippets" +++ nl +++ nl in
    markdown <- lift (match snippets with
                      | VArr items => markdown_loop items markdown
                      | _ => Throw TypeError
                      end) ;;
    writeFile EXPORT_MARKDOWN markdown ;;
    console_log green "Snippets exported to snippets-export.md"
  else
    console_log red
      ("Unsupported format. Use " +++ quoted "json" +++ " or "
         +++ quoted "markdown" +++ ".").

(** ** The command line *)

Inductive command : Type :=
| CmdAdd
| CmdSearch (query : string)
| CmdList (options : list_options)
| CmdExport (format : string)
| CmdNone.

Section Main.

Variable fuse_search : value -> fuse_options -> string -> result (list value).

(** One run of the program; [now] is the clock of the run. *)
Definition main (c : command) (now : string) : M unit :=
  match c with
  | CmdAdd => addSnippet now
  | CmdSearch query => searchSnippets fuse_search query
  | CmdList options => listSnippets options
  | CmdExport format => exportSnippets format
  | CmdNone =>
      (fun w => (Ok tt, emit Help w)) ;;
      console_log cyan
        ("Use the " +++ quoted "add" +++ " command to start managing snippets!")
  end.

(** A run in which the user will answer [rs]. *)
Definition run (c : command) (now : string) (rs : list string) (w : world)
  : result unit * world :=
  main c now (set_responses rs w).

End Main.

(* ================================================================== *)
(** * Snippet records *)
(* ================================================================== *)

(** The record of the data model.  The field [category] is named
    [category_of] here, [category] being the option of [list]. *)
Record Snippet : Type := mkSnippet {
  id : Z;
  title : string;
  code : string;
  language : string;
  tags : list string;
  category_of : string;
  description : string;
  createdAt : string
}.

(** The object that holds a record, with the properties in the order in
    which [add] defines them. *)
Definition snippet_value (s : Snippet) : value :=
  VObj [ ("id", VNum (id s));
         ("title", VStr (title s));
         ("code", VStr (code s));
         ("language", VStr (language s));
         ("tags", VArr (map VStr (tags s)));
         ("category", VStr (category_of s));
         ("description", VStr (description s));
         ("createdAt", VStr (createdAt s)) ].

(** The integers that the runtime holds exactly, where the numbers of
    the model and the doubles of the runtime agree. *)
Definition safe_integer (n : Z) : bool := (- 2 ^ 53 <? n) && (n <? 2 ^ 53).

(** A collection of records, as the array the program holds. *)
Definition collection (rs : list Snippet) : value := VArr (map snippet_value rs).

(** The collection that the backing file holds: what [loadSnippets]
    returns. *)
Definition stored (w : world) : value :=
  match snippet_file w with
  | Content text =>
      match JSON.parse text with
      | Some v => v
      | None => VArr []
      end
  | _ => VArr []
  end.

(** A world with nothing in it. *)
Definition fresh : world := mkWorld Absent Absent Absent [] None [].

(** Every terminal output of a list, in order. *)
Definition emits (outs : list output) (w : world) : world :=
  mkWorld (snippet_file w) (export_json w) (export_markdown w)
          (terminal w ++ outs) (clipboard w) (responses w).

(** ** The record that [add] stores for given answers *)

(** An answer left empty stands for the default of its question. *)
Definition or_default (default answer : string) : string :=
  if (answer =? EmptyString)%string then default else answer.

(** The answers object for the six answers, once defaults and filter
    are applied. *)
Definition answers_object (t c l : string) (tgs : list string) (cat d : string)
  : object :=
  [ ("title", VStr t); ("code", VStr c); ("language", VStr l);
    ("tags", VArr (map VStr tgs)); ("category", VStr cat);
    ("description", VStr d) ].

(** The record stored for the raw answers [t], [c], [l], [tg], [cat],
    [d] when the collection holds [count] records. *)
Definition entered (count : nat) (t c l tg cat d now : string) : Snippet :=
  mkSnippet (Z.of_nat count + 1) t c (or_default "javascript" l)
            (tags_filter tg) (or_default "General" cat) d now.

(** The questions of [add], as they appear on the terminal. *)
Definition add_asks_after_title : list output :=
  [ Ask "Enter code (press Enter twice to finish):";
    Ask "Language (e.g., javascript, python):";
    Ask "Tags (comma-separated, e.g., react, api):";
    Ask "Category (e.g., React, Node.js):";
    Ask "Description (optional):" ].

(** What [add] shows when the title is entered after [k] empty answers. *)
Definition add_dialogue (k : nat) (t : string) : list output :=
  Ask "Snippet title:" :: repeat (Rejected "Title is required") k
  ++ add_asks_after_title
  ++ [ Log green "Snippets saved!";
       Log green ("Snippet " +++ quoted t +++ " added!") ].

(** ** Repeated loads *)

(** [n] calls of [loadSnippets] in a row, with their results. *)
Fixpoint load_repeatedly (n : nat) : M (list value) :=
  match n with
  | O => ret []
  | S n' =>
      v <- loadSnippets ;;
      vs <- load_repeatedly n' ;;
      ret (v :: vs)
  end.

(** A backing file from which no collection can be read. *)
Definition unusable (f : file) : Prop :=
  f = Absent \/ f = Unreadable \/
  exists text, f = Content text /\ JSON.parse text = None.

(** A record with an id chosen by hand, for the examples. *)
Definition sample_record (n : Z) : Snippet :=
  mkSnippet n "Debounce" "function debounce() {}" "javascript"
            ["utils"; "js"] "General" EmptyString "2024-05-01T10:00:00.000Z".

(** A world whose backing file holds the given records. *)
Definition world_with (rs : list Snippet) : world :=
  set_file SNIPPET_FILE (Content (JSON.print 0 (collection rs) nl)) fresh.

(** ** Texts *)

Fixpoint all_chars (p : ascii -> bool) (s : string) : bool :=
  match s with
  | EmptyString => true
  | String c r => p c && all_chars p r
  end.

Definition not_comma (c : ascii) : bool := negb (c =? ",")%char.

Definition starts_with_space (s : string) : bool :=
  match s with
  | String c _ => is_space c
  | EmptyString => false
  end.

Fixpoint ends_with_space (s : string) : bool :=
  match s with
  | EmptyString => false
  | String c EmptyString => is_space c
  | String _ r => ends_with_space r
  end.

(** [tag] is [token] without its leading and trailing white space. *)
Definition trimmed_from (token tag : string) : Prop :=
  (exists before after,
      token = before +++ tag +++ after /\
      all_chars is_space before = true /\ all_chars is_space after = true) /\
  starts_with_space tag = false /\ ends_with_space tag = false.

(** The tags as the data model words them: the comma-separated tokens,
    trimmed, the empty ones left out. *)
Definition tags_by_spec (input : string) : list string :=
  flat_map (fun token =>
              match trim token with
              | EmptyString => []
              | tag => [tag]
              end)
           (split "," input).

(** ** Export *)

Definition unsupported_format_message : string :=
  "Unsupported format. Use " +++ quoted "json" +++ " or "
    +++ quoted "markdown" +++ ".".

Fixpoint concat_texts (l : list string) : string :=
  match l with
  | [] => EmptyString
  | x :: l' => x +++ concat_texts l'
  end.

(** The description as it is displayed: [None] for an empty one. *)
Definition description_or_none (s : Snippet) : string :=
  if (description s =? EmptyString)%string then "None" else description s.

(** The section of the markdown document for one record: a level-two
    heading with the title, four list items, and the code in a fence
    labelled with the language.  The tags are separated by a comma and
    a space ([String.concat] of the library). *)
Definition markdown_section_of (s : Snippet) : string :=
  "## " +++ title s +++ nl
  +++ "- **Language**: " +++ language s +++ nl
  +++ "- **Category**: " +++ category_of s +++ nl
  +++ "- **Tags**: " +++ String.concat ", " (tags s) +++ nl
  +++ "- **Description**: " +++ description_or_none s +++ nl
  +++ "```" +++ language s +++ nl
  +++ code s +++ nl
  +++ "```" +++ nl +++ nl.

Definition markdown_document (rs : list Snippet) : string :=
  "# Code Snippets" +++ nl +++ nl
  +++ concat_texts (map markdown_section_of rs).

(** The two-character escapes of JSON text for a quotation mark and for
    a line feed. *)
Definition escaped_quote : string := str1 backslash +++ str1 dquote.
Definition escaped_line_feed : string := str1 backslash +++ "n".

(** A text given line by line, each line ended by a line feed. *)
Definition text_of_lines (lines : list string) : string :=
  concat_texts (map (fun line => line +++ nl) lines).

(** ** What List and Search print for a record *)

Definition headline_of (s : Snippet) : output :=
  Log cyan ("[" +++ JSON.print_number (id s) EmptyString +++ "] "
            +++ title s +++ " (" +++ language s +++ ")").

(** The lines of a record in a listing. *)
Definition listed (s : Snippet) : list output :=
  [ headline_of s;
    Log plain ("  Category: " +++ category_of s);
    Log plain ("  Tags: " +++ join ", " (tags s));
    Log plain "---" ].

(** The lines of a record among the search results. *)
Definition shown (s : Snippet) : list output :=
  [ headline_of s;
    Log plain ("  Category: " +++ category_of s);
    Log plain ("  Tags: " +++ join ", " (tags s));
    Log plain ("  Description: " +++ description_or_none s);
    Log plain ("  Code:" +++ nl +++ code s);
    Log plain "---" ].

(** ** List *)

(** The capital letters below code unit 256 and, at the same positions,
    their small letters: [A] to [Z], and the letters from 192 to 222
    without the multiplication sign (215), each 32 below its small
    letter. *)
Definition upper_letters : list ascii :=
  list_ascii_of_string "ABCDEFGHIJKLMNOPQRSTUVWXYZ"
  ++ map ascii_of_nat (seq 192 23 ++ seq 216 7).

Definition lower_letters : list ascii :=
  list_ascii_of_string "abcdefghijklmnopqrstuvwxyz"
  ++ map ascii_of_nat (seq 224 23 ++ seq 248 7).

Definition case_pairs : list (ascii * ascii) := combine upper_letters lower_letters.

(** Two characters are the same letter when they are equal or are the
    capital and the small form of one letter. *)
Definition same_letter (a b : ascii) : bool :=
  (a =? b)%char
  || existsb (fun p => ((fst p =? a) && (snd p =? b)
                        || (fst p =? b) && (snd p =? a))%char)
             case_pairs.

(** Equality of texts under case-insensitive comparison: the same
    length and, position by position, the same letter. *)
Fixpoint equal_ignoring_case (s t : string) : bool :=
  match s, t with
  | EmptyString, EmptyString => true
  | String a s', String b t' => same_letter a b && equal_ignoring_case s' t'
  | _, _ => false
  end.

(** A record passes a filter when there is none, or when its text equals
    the wanted text under case-insensitive comparison. *)
Definition passes (wanted : option string) (actual : string) : bool :=
  match wanted with
  | None => true
  | Some f => equal_ignoring_case actual f
  end.

(** The records to list when every supplied filter is applied. *)
Definition wanted_by_filters (o : list_options) (s : Snippet) : bool :=
  passes (lang o) (language s) && passes (category o) (category_of s).

(** The filter that the program applies for an option: none when the
    option is absent, and none when it is the empty text. *)
Definition effective (wanted : option string) : option string :=
  match wanted with
  | Some EmptyString => None
  | other => other
  end.

(** The records that the program lists. *)
Definition kept (o : list_options) (s : Snippet) : bool :=
  passes (effective (lang o)) (language s)
  && passes (effective (category o)) (category_of s).

(** What List prints for the records that remain. *)
Definition listing (l : list Snippet) : list output :=
  match l with
  | [] => [Log yellow "No snippets found."]
  | _ => flat_map listed l
  end.

(** A record in Python, for the examples. *)
Definition python_record : Snippet :=
  mkSnippet 1 "Flatten" "[x for l in ls for x in l]" "python"
            ["lists"] "General" EmptyString "2024-05-01T10:00:00.000Z".

(** ** Search *)

(** The record that a response to the copy prompt designates: the first
    one whose id is the number that [parseInt] reads. *)
Definition resolve (rs : list Snippet) (response : string) : option Snippet :=
  match parseInt response with
  | Some n => find (fun s => id s =? n) rs
  | None => None
  end.

Definition copy_message : string :=
  "Enter snippet ID to copy to clipboard (or press Enter to skip):".

(** The id of a record as the headline of a result shows it, in decimal
    digits. *)
Definition shown_id (n : Z) : string := JSON.print_number n EmptyString.

(** The first record of the collection with the given id. *)
Definition first_with_id (rs : list Snippet) (n : Z) : option Snippet :=
  find (fun s => id s =? n) rs.

Definition is_digit_or_sign (c : ascii) : bool :=
  existsb (Ascii.eqb c) (list_ascii_of_string "0123456789+-").

(** A response that names no number: after its leading white space
    comes nothing, or a character that is neither a digit nor a sign. *)
Fixpoint lacks_number (s : string) : bool :=
  match s with
  | EmptyString => true
  | String c r => if is_space c then lacks_number r else negb (is_digit_or_sign c)
  end.

(** A stand-in for the fuzzy matcher in the examples: every record
    matches every query. *)
Definition match_everything (v : value) (o : fuse_options) (q : string)
  : result (list value) :=
  match v with
  | VArr items => Ok items
  | _ => Throw TypeError
  end.

(** ** Ids *)

(** The id of a record, when it is a number. *)
Definition id_of (v : value) : option Z :=
  match prop "id" v with
  | Ok (Some (VNum n)) => Some n
  | _ => None
  end.

(** The ids of the records of a collection, in collection order. *)
Definition ids (v : value) : list (option Z) :=
  match v with
  | VArr items => map id_of items
  | _ => []
  end.

(** The invariant of the data model: the collection is an array whose
    records carry numbers as ids, strictly increasing in collection
    order (and so pairwise distinct). *)
Definition increasing_ids (v : value) : Prop :=
  exists ns, (exists items, v = VArr items) /\
             ids v = map Some ns /\ StronglySorted Z.lt ns.

(** The collections that Add builds from nothing: the record at
    position [i], counted from one, has id [i]. *)
Definition numbered (v : value) : Prop :=
  exists items, v = VArr items /\
                map id_of items
                = map (fun i => Some (Z.of_nat i)) (seq 1 (List.length items)).

Section Reachable.

Variable fuse_search : value -> fuse_options -> string -> result (list value).

(** The worlds that the program reaches from a world with a numbered
    collection: by a run of a command, whatever the clock and the
    answers of the user, by a load, and by a save of the collection
    held. *)
Inductive reachable : world -> Prop :=
| reach_start w : numbered (stored w) -> reachable w
| reach_run w c now rs :
    reachable w -> reachable (snd (run fuse_search c now rs w))
| reach_load w : reachable w -> reachable (snd (loadSnippets w))
| reach_save w : reachable w -> reachable (snd (saveSnippets (stored w) w)).

End Reachable.

(* ================================================================== *)
(** * Notions for the further properties *)
(* ================================================================== *)

(** A frame: a relation between the world before an operation and the
    world after it. *)
Definition frame {A} (R : world -> world -> Prop) (m : M A) : Prop :=
  forall w, R w (snd (m w)).

(** The later world is the earlier one with more terminal output. *)
Definition printed_more (w w' : world) : Prop :=
  exists outs, w' = emits outs w.

(** The three files are the same in both worlds. *)
Definition same_files (w w' : world) : Prop :=
  snippet_file w' = snippet_file w /\
  export_json w' = export_json w /\
  export_markdown w' = export_markdown w.

(** Backing file, clipboard and pending responses are the same. *)
Definition same_store_and_user (w w' : world) : Prop :=
  snippet_file w' = snippet_file w /\
  clipboard w' = clipboard w /\
  responses w' = responses w.

(** The value has no text under the given property name. *)
Definition lacks_text (key : string) (v : value) : Prop :=
  match prop key v with
  | Ok (Some (VStr _)) => False
  | _ => True
  end.

(** A tag as the filter of Add leaves it: not empty, no comma, no white
    space at either end. *)
Definition clean_tag (tag : string) : Prop :=
  tag <> EmptyString /\
  all_chars not_comma tag = true /\
  starts_with_space tag = false /\
  ends_with_space tag = false.

(** What List shows of a record. *)
Definition listed_fields (s : Snippet) : Z * string * string * string * list string :=
  (id s, title s, language s, category_of s, tags s).

(** Export files and clipboard are the same in both worlds. *)
Definition same_exports_and_clipboard (w w' : world) : Prop :=
  export_json w' = export_json w /\
  export_markdown w' = export_markdown w /\
  clipboard w' = clipboard w.

(** The later world continues the earlier one: the terminal shows what
    it showed and possibly more, and the pending answers are what is
    left of the earlier ones after some were used from the front. *)
Definition continues (w w' : world) : Prop :=
  (exists outs, terminal w' = terminal w ++ outs) /\
  (exists used, responses w = used ++ responses w').

(** The numbers of the value are integers that the runtime holds
    exactly. *)
Fixpoint safe_numbers (v : value) : bool :=
  match v with
  | VNum n => safe_integer n
  | VArr items => forallb safe_numbers items
  | VObj props => forallb (fun kv => safe_numbers (snd kv)) props
  | _ => true
  end.



(* ================================================================== *)
(** * Notions used in the proofs *)
(* ================================================================== *)

Module JSONSpec.
Import JSON.

(** The continuations that may follow a printed value: the end of the
    text, a comma, or a line feed. *)
Definition follow_ok (k : string) : Prop :=
  match k with
  | EmptyString => True
  | String c _ => c = ","%char \/ c = LF
  end.

(** The number of parser calls that reading a value back takes. *)
Fixpoint size (v : value) : nat :=
  match v with
  | VArr items => S (fold_right (fun x n => S (size x + n)) O items)
  | VObj props => S (fold_right (fun kv n => S (size (snd kv) + n)) O props)
  | _ => 1%nat
  end.

(** The printer's two local loops, as functions of their own. *)
Fixpoint print_items (ind : nat) (k : string) (l : list value) : string :=
  match l with
  | [] => String LF (spaces ind (String "]" k))
  | y :: l' =>
      String "," (String LF (spaces (2 + ind)
        (print (2 + ind) y (print_items ind k l'))))
  end.

Fixpoint print_props (ind : nat) (k : string) (l : list (string * value)) : string :=
  match l with
  | [] => String LF (spaces ind (String "}" k))
  | (key', y) :: l' =>
      String "," (String LF (spaces (2 + ind)
        (quote key' (String ":" (String SP
          (print (2 + ind) y (print_props ind k l')))))))
  end.

(** A continuation that does not extend a literal. *)
Definition ends_number (k : string) : Prop :=
  match k with
  | EmptyString => True
  | String c _ => digit_cons c = None /\ starts_fraction k = false
  end.

(** Digit sequences that are JSON integers: not empty, and no zero in
    front of another digit. *)
Definition plain_uint (u : uint) : Prop :=
  match u with
  | Nil => False
  | D0 Nil => True
  | D0 _ => False
  | _ => True
  end.

Definition reads_back (v : value) : Prop :=
  forall ind k fuel,
    follow_ok k -> (size v <= fuel)%nat ->
    parse_value fuel (print ind v k) = Some (normalize v, k).

Definition items_size (l : list value) : nat :=
  fold_right (fun x n => S (size x + n)) O l.

Definition props_size (l : list (string * value)) : nat :=
  fold_right (fun kv n => S (size (snd kv) + n)) O l.

Definition normalize_prop (kv : string * value) : string * value :=
  (fst kv, normalize (snd kv)).

Definition fits (v : value) : Prop :=
  forall ind k, (size v + String.length k <= String.length (print ind v k))%nat.

End JSONSpec.

Module ObjSpec.
Import Obj.

Definition names (o : object) : list string := map fst o.

(** [k] may stand before [k'] in an object: the names differ, array
    indices come first, and they ascend. *)
Definition may_precede (k k' : string) : Prop :=
  k <> k' /\
  match array_index k, array_index k' with
  | Some i, Some j => (i <= j)%N
  | Some _, None => True
  | None, Some _ => False
  | None, None => True
  end.

Fixpoint ordered (ks : list string) : Prop :=
  match ks with
  | [] => True
  | k :: ks' => Forall (may_precede k) ks' /\ ordered ks'
  end.

(** The values of the runtime: every object has its properties in
    property order, without a repeated name. *)
Unset Elimination Schemes.
Inductive canonical : value -> Prop :=
| canonical_null : canonical VNull
| canonical_bool b : canonical (VBool b)
| canonical_num n : canonical (VNum n)
| canonical_str s : canonical (VStr s)
| canonical_arr items : Forall canonical items -> canonical (VArr items)
| canonical_obj props :
    ordered (names props) ->
    Forall (fun kv => canonical (snd kv)) props ->
    canonical (VObj props).
Set Elimination Schemes.

End ObjSpec.

(** An operation that leaves the backing file as it is. *)
Definition keeps_store {A} (m : M A) : Prop :=
  forall w, snippet_file (snd (m w)) = snippet_file w.

(** Every character, for the proofs by enumeration. *)
Definition all_ascii : list ascii := map ascii_of_nat (seq 0 256).

(** The number that a sequence of decimal digits denotes after the
    digits that gave [acc]. *)
Fixpoint uint_value (u : uint) (acc : Z) : Z :=
  match u with
  | Nil => acc
  | D0 u' => uint_value u' (10 * acc + 0)
  | D1 u' => uint_value u' (10 * acc + 1)
  | D2 u' => uint_value u' (10 * acc + 2)
  | D3 u' => uint_value u' (10 * acc + 3)
  | D4 u' => uint_value u' (10 * acc + 4)
  | D5 u' => uint_value u' (10 * acc + 5)
  | D6 u' => uint_value u' (10 * acc + 6)
  | D7 u' => uint_value u' (10 * acc + 7)
  | D8 u' => uint_value u' (10 * acc + 8)
  | D9 u' => uint_value u' (10 * acc + 9)
  end.

(* ================================================================== *)
(** * The model at work *)
(* ================================================================== *)

Module Examples.

(** An object text with a repeated name and two array indices: the
    later value of [b] stands at the place of the first, and the indices
    come first, in ascending order. *)
Example parse_object_order :
  JSON.parse ("{" +++ quoted "b" +++ ": 1, " +++ quoted "2" +++ ": 2, "
                  +++ quoted "1" +++ ": 3, " +++ quoted "b" +++ ": 4}")
  = Some (VObj [("1", VNum 3); ("2", VNum 2); ("b", VNum 4)]).
Proof. reflexivity. Qed.

Example parse_rejects_leading_zero : JSON.parse "[1, 02]" = None.
Proof. reflexivity. Qed.

Example parse_escapes :
  JSON.parse (quoted "a\nA\\") = Some (VStr ("a" +++ nl +++ "A\")).
Proof. reflexivity. Qed.

Example stringify_nested :
  JSON.stringify (VArr [VObj [("id", VNum 1); ("tags", VArr [])]; VArr [VNull]])
  = "[" +++ nl +++ "  {" +++ nl
    +++ "    " +++ quoted "id" +++ ": 1," +++ nl
    +++ "    " +++ quoted "tags" +++ ": []" +++ nl
    +++ "  }," +++ nl
    +++ "  [" +++ nl +++ "    null" +++ nl +++ "  ]" +++ nl +++ "]".
Proof. reflexivity. Qed.

Example parseInt_samples :
  map parseInt ["12"; " 12abc"; "abc"; "-0x1F"; "+7"; "0x"; EmptyString; "1e3"; "2.9"]
  = [Some 12; Some 12; None; Some (-31); Some 7; None; None; Some 1; Some 2].
Proof. reflexivity. Qed.

Example trim_sample : trim ("  a b " +++ nl) = "a b".
Proof. reflexivity. Qed.

Example split_samples :
  split "," "a,,b," = ["a"; EmptyString; "b"; EmptyString]
  /\ split "," EmptyString = [EmptyString].
Proof. split; reflexivity. Qed.

Example toLowerCase_sample : toLowerCase "PyThOn 3" = "python 3".
Proof. reflexivity. Qed.

(** The scenario of the specification: from an empty store, Add a
    snippet titled Debounce with the tags [utils, js]; List then shows
    the one entry, and the markdown export holds its heading and a
    fence labelled [javascript]. *)
Definition after_first_add : world :=
  snd (run match_everything CmdAdd "2024-05-01T10:00:00.000Z"
         ["Debounce"; "const debounce = 1;"; EmptyString; "utils, js";
          EmptyString; EmptyString]
         fresh).

Example scenario_stored :
  stored after_first_add
  = collection [mkSnippet 1 "Debounce" "const debounce = 1;" "javascript"
                          ["utils"; "js"] "General" EmptyString
                          "2024-05-01T10:00:00.000Z"].
Proof. vm_compute. reflexivity. Qed.

Example scenario_list :
  terminal (snd (run match_everything (CmdList (mkListOptions None None))
                   EmptyString [] (set_file SNIPPET_FILE
                                     (snippet_file after_first_add) fresh)))
  = [ Log cyan "[1] Debounce (javascript)";
      Log plain "  Category: General";
      Log plain "  Tags: utils, js";
      Log plain "---" ].
Proof. vm_compute. reflexivity. Qed.

Example scenario_markdown :
  export_markdown
    (snd (run match_everything (CmdExport "markdown") EmptyString []
            after_first_add))
  = Content ("# Code Snippets" +++ nl +++ nl
             +++ "## Debounce" +++ nl
             +++ "- **Language**: javascript" +++ nl
             +++ "- **Category**: General" +++ nl
             +++ "- **Tags**: utils, js" +++ nl
             +++ "- **Description**: None" +++ nl
             +++ "```javascript" +++ nl
             +++ "const debounce = 1;" +++ nl
             +++ "```" +++ nl +++ nl).
Proof. vm_compute. reflexivity. Qed.

(** A collection that is not an array: Add has nothing to push to. *)
Example add_to_a_non_array :
  fst (run match_everything CmdAdd EmptyString
         ["t"; "c"; EmptyString; EmptyString; EmptyString; EmptyString]
         (set_file SNIPPET_FILE (Content "{}") fresh))
  = Throw TypeError.
Proof. reflexivity. Qed.

(** A record without tags: List prints its first two lines and fails
    at the join. *)
Example list_record_without_tags :
  let w := set_file SNIPPET_FILE (Content "[{}]") fresh in
  fst (listSnippets (mkListOptions None None) w) = Throw TypeError
  /\ terminal (snd (listSnippets (mkListOptions None None) w))
     = [ Log cyan "[undefined] undefined (undefined)";
         Log plain "  Category: undefined" ].
Proof. split; reflexivity. Qed.

End Examples.
(* ================================================================== *)
(** * Parsing a printed value gives the value back *)
(* ================================================================== *)

Module JSONFacts.
Import JSON JSONSpec.

Lemma print_arr_cons ind x xs k :
  print ind (VArr (x :: xs)) k =
  String "[" (String LF (spaces (2 + ind)
    (print (2 + ind) x (print_items ind k xs)))).
Proof.
  cbn [print]. do 4 f_equal.
  induction xs as [|y l IH]; cbn [print_items]; [reflexivity|].
  now rewrite IH.
Qed.

Lemma print_obj_cons ind key x ps k :
  print ind (VObj ((key, x) :: ps)) k =
  String "{" (String LF (spaces (2 + ind) (quote key (String ":" (String SP
    (print (2 + ind) x (print_props ind k ps))))))).
Proof.
  cbn [print]. do 7 f_equal.
  induction ps as [|[key' y] l IH]; cbn [print_props]; [reflexivity|].
  now rewrite IH.
Qed.

(** ** White space *)

Lemma skip_ws_spaces n k : skip_ws (spaces n k) = skip_ws k.
Proof. induction n; simpl; auto. Qed.

Lemma skip_ws_idem s : skip_ws (skip_ws s) = skip_ws s.
Proof.
  induction s as [|c r IH]; simpl; [reflexivity|].
  destruct (is_ws c) eqn:E; [exact IH|]. simpl. now rewrite E.
Qed.

Lemma parse_value_skip_ws fuel s :
  parse_value fuel (skip_ws s) = parse_value fuel s.
Proof. destruct fuel; simpl; [reflexivity|]. now rewrite skip_ws_idem. Qed.

Lemma parse_elements_skip_ws fuel acc s :
  parse_elements fuel acc (skip_ws s) = parse_elements fuel acc s.
Proof. destruct fuel; simpl; [reflexivity|]. now rewrite parse_value_skip_ws. Qed.

Lemma parse_members_skip_ws fuel acc s :
  parse_members fuel acc (skip_ws s) = parse_members fuel acc s.
Proof. destruct fuel; simpl; [reflexivity|]. now rewrite skip_ws_idem. Qed.

Lemma parse_value_line fuel n s :
  parse_value fuel (String LF (spaces n s)) = parse_value fuel s.
Proof.
  rewrite <- parse_value_skip_ws. simpl. rewrite skip_ws_spaces.
  apply parse_value_skip_ws.
Qed.

(** ** String literals *)

Lemma parse_string_escape c k :
  parse_string (escape c k) = push c (parse_string k).
Proof.
  destruct c as [[] [] [] [] [] [] [] []]; reflexivity.
Qed.

Lemma parse_string_quote s k :
  parse_string (escape_all s (String dquote k)) = Some (s, k).
Proof.
  induction s as [|c s IH]; [reflexivity|].
  cbn [escape_all]. rewrite parse_string_escape, IH. reflexivity.
Qed.

(** ** Integer literals *)

Lemma follow_ends_number k : follow_ok k -> ends_number k.
Proof.
  destruct k as [|c r]; simpl; [trivial|].
  intros [-> | ->]; split; reflexivity.
Qed.

Lemma parse_digits_print u k :
  ends_number k -> parse_digits (print_uint u k) = (u, k).
Proof.
  intros Hk. induction u; cbn [print_uint parse_digits];
    try (cbn; rewrite IHu; reflexivity).
  destruct k as [|c r]; [reflexivity|]. simpl in *.
  now destruct Hk as [-> _].
Qed.

(** The decimal digits of a positive number do not start with a zero. *)
Lemma to_uint_head p :
  match Pos.to_uint p with
  | Nil | D0 _ => False
  | _ => True
  end.
Proof.
  pose proof (DecimalPos.Unsigned.to_of (Pos.to_uint p)) as H.
  rewrite DecimalPos.Unsigned.of_to in H. cbn [N.to_uint] in H.
  pose proof (DecimalPos.Unsigned.to_uint_nonzero p) as Hz.
  unfold unorm in H.
  destruct (nzhead (Pos.to_uint p)) eqn:E.
  - congruence.
  - exfalso. exact (DecimalFacts.nzhead_nonzero _ _ E).
  - now rewrite H.
  - now rewrite H.
  - now rewrite H.
  - now rewrite H.
  - now rewrite H.
  - now rewrite H.
  - now rewrite H.
  - now rewrite H.
  - now rewrite H.
Qed.

Lemma print_uint_head u k :
  plain_uint u ->
  exists c r, print_uint u k = String c r /\ (c =? "-")%char = false
              /\ starts_number c = true /\ is_ws c = false.
Proof.
  destruct u; cbn [plain_uint print_uint]; try contradiction; intros _;
    eexists _, _; repeat split; reflexivity.
Qed.

Lemma parse_number_uint (neg : bool) u k :
  ends_number k -> plain_uint u ->
  parse_number (if neg then String "-" (print_uint u k) else print_uint u k)
  = Some (VNum (Z.of_int (if neg then Neg u else Pos u)), k).
Proof.
  intros Hk Hu.
  assert (Hf : starts_fraction k = false).
  { destruct k; [reflexivity|]. apply Hk. }
  destruct (print_uint_head u k Hu) as (c & r & E & Hm & _ & _).
  unfold parse_number.
  assert (Hd : parse_digits (print_uint u k) = (u, k))
    by now apply parse_digits_print.
  destruct neg.
  - change (Ascii.eqb "-" "-") with true. cbv beta iota.
    rewrite Hd, Hf.
    destruct u as [|u|u|u|u|u|u|u|u|u|u]; try contradiction; try reflexivity.
    destruct u; try contradiction; reflexivity.
  - rewrite E, Hm, <- E. cbv beta iota. rewrite Hd, Hf.
    destruct u as [|u|u|u|u|u|u|u|u|u|u]; try contradiction; try reflexivity.
    destruct u; try contradiction; reflexivity.
Qed.

Lemma to_int_plain n :
  exists (neg : bool) u, Z.to_int n = (if neg then Neg u else Pos u) /\ plain_uint u.
Proof.
  destruct n as [|p|p]; cbn [Z.to_int].
  - now exists false, (D0 Nil).
  - exists false, (Pos.to_uint p). split; [reflexivity|].
    pose proof (to_uint_head p). now destruct (Pos.to_uint p).
  - exists true, (Pos.to_uint p). split; [reflexivity|].
    pose proof (to_uint_head p). now destruct (Pos.to_uint p).
Qed.

Lemma parse_number_print n k :
  ends_number k -> parse_number (print_number n k) = Some (VNum n, k).
Proof.
  intros Hk. unfold print_number.
  destruct (to_int_plain n) as (neg & u & E & Hu).
  rewrite <- (DecimalZ.of_to n) at 2. rewrite E.
  destruct neg; cbn [print_int].
  - exact (parse_number_uint true u k Hk Hu).
  - exact (parse_number_uint false u k Hk Hu).
Qed.

Lemma print_number_head n k :
  exists c r, print_number n k = String c r /\ starts_number c = true /\ is_ws c = false.
Proof.
  unfold print_number.
  destruct (to_int_plain n) as (neg & u & E & Hu). rewrite E.
  destruct neg; cbn [print_int].
  - eexists _, _; repeat split; reflexivity.
  - destruct (print_uint_head u k Hu) as (c & r & Ec & _ & Hs & Hw).
    now exists c, r.
Qed.

Lemma parse_value_number fuel n k :
  ends_number k -> parse_value (S fuel) (print_number n k) = Some (VNum n, k).
Proof.
  intros Hk. destruct (print_number_head n k) as (c & r & E & Hs & Hw).
  cbn [parse_value]. rewrite E. cbn [skip_ws]. rewrite Hw, Hs, <- E.
  now apply parse_number_print.
Qed.

Lemma print_number_length n k :
  (S (String.length k) <= String.length (print_number n k))%nat.
Proof.
  assert (H : forall u, (String.length k <= String.length (print_uint u k))%nat).
  { induction u; cbn; lia. }
  unfold print_number.
  destruct (to_int_plain n) as (neg & u & E & Hu). rewrite E.
  destruct neg; cbn [print_int String.length].
  - specialize (H u). lia.
  - destruct u as [|u|u|u|u|u|u|u|u|u|u]; try contradiction;
      cbn [print_uint String.length]; specialize (H u); lia.
Qed.

(** ** Values *)

Lemma parse_value_space fuel s :
  parse_value fuel (String SP s) = parse_value fuel s.
Proof.
  rewrite <- parse_value_skip_ws. simpl. apply parse_value_skip_ws.
Qed.

Lemma parse_elements_line fuel acc n s :
  parse_elements fuel acc (String LF (spaces n s)) = parse_elements fuel acc s.
Proof.
  rewrite <- parse_elements_skip_ws. simpl. rewrite skip_ws_spaces.
  apply parse_elements_skip_ws.
Qed.

Lemma parse_members_line fuel acc n s :
  parse_members fuel acc (String LF (spaces n s)) = parse_members fuel acc s.
Proof.
  rewrite <- parse_members_skip_ws. simpl. rewrite skip_ws_spaces.
  apply parse_members_skip_ws.
Qed.

Lemma starts_number_not_bracket c :
  starts_number c = true -> (c =? "]")%char = false.
Proof.
  destruct c as [[] [] [] [] [] [] [] []]; try discriminate; reflexivity.
Qed.

(** A printed value starts with a character that is neither white space
    nor a closing bracket. *)
Lemma print_head v ind k :
  exists c r, print ind v k = String c r /\ is_ws c = false
              /\ (c =? "]")%char = false.
Proof.
  destruct v as [|[]|n|s|[|x xs]|[|[key x] ps]];
    try (eexists _, _; repeat split; reflexivity).
  cbn [print].
  destruct (print_number_head n k) as (c & r & E & Hs & Hw).
  exists c, r. repeat split; auto using starts_number_not_bracket.
Qed.

Lemma elements_read_back xs :
  Forall reads_back xs ->
  forall x acc fuel ind k,
    reads_back x -> follow_ok k ->
    (S (size x + items_size xs) <= fuel)%nat ->
    parse_elements fuel acc (print (2 + ind) x (print_items ind k xs))
    = Some (VArr (List.rev acc ++ map normalize (x :: xs)), k).
Proof.
  induction 1 as [|y l Hy Hl IH]; intros x acc fuel ind k Hx Hk Hfuel;
    (destruct fuel as [|fuel]; [lia|]); cbn [parse_elements].
  - rewrite Hx; [|right; reflexivity|cbn in Hfuel; lia].
    cbn [print_items skip_ws is_ws]. cbn. rewrite skip_ws_spaces. reflexivity.
  - cbn [items_size fold_right] in Hfuel. fold (items_size l) in Hfuel.
    rewrite Hx; [|left; reflexivity|lia].
    cbn [print_items]. cbn [skip_ws]. cbn -[print spaces parse_elements Nat.add].
    rewrite parse_elements_line, IH by (auto; lia).
    cbn [List.rev map]. now rewrite <- app_assoc.
Qed.

Lemma members_read_back ps :
  Forall (fun kv => reads_back (snd kv)) ps ->
  forall key x acc fuel ind k,
    reads_back x -> follow_ok k ->
    (S (size x + props_size ps) <= fuel)%nat ->
    parse_members fuel acc
      (quote key (String ":" (String SP
         (print (2 + ind) x (print_props ind k ps)))))
    = Some (VObj (Obj.spread (map normalize_prop ((key, x) :: ps)) acc), k).
Proof.
  induction 1 as [|[key' y] l Hy Hl IH]; intros key x acc fuel ind k Hx Hk Hfuel;
    (destruct fuel as [|fuel]; [lia|]); cbn [parse_members]; unfold quote;
    cbn [skip_ws]; cbn -[print spaces parse_members parse_value parse_string
                         skip_ws Nat.add print_props];
    rewrite parse_string_quote.
  - cbn [skip_ws]. cbn -[print spaces parse_value skip_ws Nat.add print_props].
    rewrite parse_value_space, Hx; [|right; reflexivity|cbn in Hfuel; lia].
    cbn [print_props skip_ws]. cbn. rewrite skip_ws_spaces. reflexivity.
  - cbn [props_size fold_right snd] in Hfuel. fold (props_size l) in Hfuel.
    cbn [skip_ws]. cbn -[print spaces parse_value parse_members skip_ws Nat.add print_props].
    rewrite parse_value_space, Hx; [|left; reflexivity|lia].
    cbn [print_props]. cbn [skip_ws].
    cbn -[print spaces parse_members Nat.add quote].
    rewrite parse_members_line. simpl in Hy.
    rewrite IH by (auto; lia). reflexivity.
Qed.

Lemma value_reads_back v : reads_back v.
Proof.
  induction v as [|b|n|s|items IH|props IH] using value_ind;
    intros ind k fuel Hk Hfuel; (destruct fuel as [|fuel]; [cbn in Hfuel; lia|]).
  - reflexivity.
  - destruct b; reflexivity.
  - apply parse_value_number. now apply follow_ends_number.
  - cbn [print normalize]. unfold quote. cbn [parse_value skip_ws].
    cbn -[parse_string]. now rewrite parse_string_quote.
  - destruct items as [|x xs]; [reflexivity|].
    rewrite print_arr_cons. inversion IH as [|? ? Hx Hxs]; subst.
    destruct (print_head x (2 + ind) (print_items ind k xs))
      as (c & r & E & Hw & Hb).
    cbn [parse_value skip_ws]. cbn -[print spaces parse_elements Nat.add skip_ws].
    cbn [skip_ws]. cbn -[print spaces parse_elements Nat.add skip_ws].
    rewrite skip_ws_spaces, E. cbn [skip_ws]. rewrite Hw, Hb, <- E.
    rewrite parse_elements_line.
    rewrite (elements_read_back xs Hxs x [] fuel ind k Hx Hk).
    + reflexivity.
    + cbn [size] in Hfuel. cbn [fold_right] in Hfuel. unfold items_size. lia.
  - destruct props as [|[key x] ps]; [reflexivity|].
    rewrite print_obj_cons. inversion IH as [|? ? Hx Hps]; subst.
    cbn [parse_value skip_ws]. cbn -[print spaces parse_members Nat.add skip_ws quote].
    cbn [skip_ws]. cbn -[print spaces parse_members Nat.add skip_ws quote].
    rewrite skip_ws_spaces. unfold quote at 1. cbn [skip_ws].
    cbn -[print spaces parse_members Nat.add skip_ws escape_all].
    change (String dquote (escape_all key (String dquote ?t))) with (quote key t).
    rewrite parse_members_line.
    rewrite (members_read_back ps Hps key x [] fuel ind k Hx Hk).
    + reflexivity.
    + cbn [size] in Hfuel. cbn [fold_right snd] in Hfuel. unfold props_size. lia.
Qed.

(** ** The fuel of [parse] suffices for a printed text *)

Lemma spaces_length n k : String.length (spaces n k) = (n + String.length k)%nat.
Proof. induction n; simpl; auto. Qed.

Lemma escape_length c k : (S (String.length k) <= String.length (escape c k))%nat.
Proof.
  unfold escape.
  repeat match goal with |- context [if ?b then _ else _] => destruct b end;
    cbn [String.length]; lia.
Qed.

Lemma escape_all_length s k :
  (String.length k <= String.length (escape_all s k))%nat.
Proof.
  induction s as [|c s IH]; cbn [escape_all]; [lia|].
  pose proof (escape_length c (escape_all s k)). lia.
Qed.

Lemma quote_length s k : (2 + String.length k <= String.length (quote s k))%nat.
Proof.
  unfold quote. cbn [String.length].
  pose proof (escape_all_length s (String dquote k)) as H.
  cbn [String.length] in H. lia.
Qed.

Lemma items_fit xs :
  Forall fits xs ->
  forall ind k,
    (items_size xs + S (String.length k)
     <= String.length (print_items ind k xs))%nat.
Proof.
  induction 1 as [|y l Hy Hl IH]; intros ind k; cbn [print_items items_size fold_right].
  - cbn [String.length]. rewrite spaces_length. cbn [String.length]. lia.
  - fold (items_size l). cbn [String.length]. rewrite spaces_length.
    specialize (Hy (2 + ind)%nat (print_items ind k l)).
    specialize (IH ind k). lia.
Qed.

Lemma props_fit ps :
  Forall (fun kv => fits (snd kv)) ps ->
  forall ind k,
    (props_size ps + S (String.length k)
     <= String.length (print_props ind k ps))%nat.
Proof.
  induction 1 as [|[key y] l Hy Hl IH]; intros ind k;
    cbn [print_props props_size fold_right snd].
  - cbn [String.length]. rewrite spaces_length. cbn [String.length]. lia.
  - fold (props_size l). cbn [String.length]. rewrite spaces_length.
    match goal with |- context [quote key ?t] =>
      pose proof (quote_length key t) as Hq end.
    cbn [String.length] in Hq.
    specialize (Hy (2 + ind)%nat (print_props ind k l)). cbn [snd] in Hy.
    specialize (IH ind k). lia.
Qed.

Lemma value_fits v : fits v.
Proof.
  induction v as [|b|n|s|items IH|props IH] using value_ind; intros ind k.
  - cbn. lia.
  - destruct b; cbn; lia.
  - cbn [size print]. pose proof (print_number_length n k). lia.
  - cbn [size print]. pose proof (quote_length s k). lia.
  - destruct items as [|x xs]; [cbn; lia|].
    rewrite print_arr_cons. inversion IH as [|? ? Hx Hxs]; subst.
    cbn [size fold_right String.length]. fold (items_size xs).
    rewrite spaces_length.
    specialize (Hx (2 + ind)%nat (print_items ind k xs)).
    pose proof (items_fit xs Hxs ind k). lia.
  - destruct props as [|[key x] ps]; [cbn; lia|].
    rewrite print_obj_cons. inversion IH as [|? ? Hx Hps]; subst.
    cbn [size fold_right String.length snd]. fold (props_size ps).
    rewrite spaces_length.
    match goal with |- context [quote key ?t] =>
      pose proof (quote_length key t) as Hq end.
    cbn [String.length] in Hq.
    specialize (Hx (2 + ind)%nat (print_props ind k ps)). cbn [snd] in Hx.
    pose proof (props_fit ps Hps ind k). lia.
Qed.

(** Reading back a printed value that is followed by white space only. *)
Lemma parse_print v k :
  follow_ok k -> skip_ws k = EmptyString ->
  parse (print 0 v k) = Some (normalize v).
Proof.
  intros Hk Hws. unfold parse.
  rewrite value_reads_back; auto.
  - now rewrite Hws.
  - pose proof (value_fits v 0%nat k). lia.
Qed.

(** [JSON.parse(JSON.stringify(v, null, 2))] is [v] in canonical form. *)
Lemma parse_stringify v : parse (stringify v) = Some (normalize v).
Proof. apply parse_print; reflexivity. Qed.

End JSONFacts.


(* ================================================================== *)
(** * Objects in property order *)
(* ================================================================== *)

Module ObjFacts.
Import Obj.
Export ObjSpec.

Lemma get_absent k o : ~ In k (names o) -> get k o = None.
Proof.
  induction o as [|[k' v'] o IH]; cbn; [reflexivity|]. intros H.
  destruct (String.eqb_spec k k') as [->|Hne]; [tauto|]. apply IH. tauto.
Qed.

Lemma has_present k o : In k (names o) -> has k o = true.
Proof.
  unfold has. induction o as [|[k' v'] o IH]; cbn; [tauto|]. intros H.
  destruct (String.eqb_spec k k') as [->|Hne]; [reflexivity|].
  apply IH. destruct H; [congruence|assumption].
Qed.

Lemma has_absent k o : has k o = false -> ~ In k (names o).
Proof.
  intros H Hin. apply has_present in Hin. congruence.
Qed.

Lemma keys_replace k v o : names (replace k v o) = names o.
Proof.
  unfold names. induction o as [|[k' v'] o IH]; cbn; [reflexivity|].
  destruct (k =? k')%string; cbn; [reflexivity|]. now rewrite IH.
Qed.

Lemma Forall_replace (P : string * value -> Prop) k v o :
  (forall k', P (k', v)) -> Forall P o -> Forall P (replace k v o).
Proof.
  intros Hv. induction 1 as [|[k' v'] o Hkv Ho IH]; cbn; [constructor|].
  destruct (k =? k')%string; constructor; auto.
Qed.

Lemma Forall_insert_index (P : string * value -> Prop) i k v o :
  P (k, v) -> Forall P o -> Forall P (insert_index i k v o).
Proof.
  intros Hv. induction 1 as [|[k' v'] o Hkv Ho IH]; cbn; [auto|].
  destruct (array_index k') as [j|]; [destruct (j <=? i)%N|]; auto.
Qed.

Lemma Forall_keys_insert_index (P : string -> Prop) i k v o :
  P k -> Forall P (names o) -> Forall P (names (insert_index i k v o)).
Proof.
  intros Hk. induction o as [|[k' v'] o IH]; cbn; intros Ho; [auto|].
  inversion Ho; subst.
  destruct (array_index k') as [j|]; [destruct (j <=? i)%N|]; cbn; auto.
Qed.

Lemma ordered_snoc ks k :
  ordered ks -> Forall (fun k1 => may_precede k1 k) ks -> ordered (ks ++ [k]).
Proof.
  induction ks as [|k1 ks IH]; cbn; [auto|].
  intros [H1 H2] H. inversion H; subst. split; [|auto].
  apply Forall_app. auto.
Qed.

Lemma ordered_insert_index i k v o :
  ordered (names o) -> ~ In k (names o) -> array_index k = Some i ->
  ordered (names (insert_index i k v o)).
Proof.
  intros Ho Hk Hi. induction o as [|[k' v'] o IH]; cbn; [auto|].
  cbn in Ho, Hk. destruct Ho as [Hfirst Hrest].
  assert (Hne : k' <> k) by tauto.
  assert (Hk' : ~ In k (names o)) by tauto.
  assert (Hall : Forall (fun k2 => k <> k2) (names o)).
  { apply Forall_forall. intros k2 H2 ->. tauto. }
  destruct (array_index k') as [j|] eqn:Ej.
  - destruct (N.leb_spec j i) as [Hle|Hgt]; cbn.
    + split; [|auto].
      apply Forall_keys_insert_index; [|assumption].
      split; [assumption|]. now rewrite Ej, Hi.
    + split; [|split; assumption].
      constructor.
      * split; [congruence|]. rewrite Hi, Ej. lia.
      * rewrite Forall_forall in *. intros k2 H2.
        specialize (Hfirst k2 H2). specialize (Hall k2 H2).
        destruct Hfirst as [_ Hord]. split; [assumption|].
        rewrite Hi. rewrite Ej in Hord.
        destruct (array_index k2); [lia|trivial].
  - cbn. split; [|split; assumption].
    constructor.
    + split; [congruence|]. now rewrite Hi, Ej.
    + rewrite Forall_forall in *. intros k2 H2.
      specialize (Hfirst k2 H2). specialize (Hall k2 H2).
      destruct Hfirst as [_ Hord]. split; [assumption|].
      rewrite Hi. rewrite Ej in Hord.
      destruct (array_index k2); [contradiction|trivial].
Qed.

Lemma ordered_set k v o : ordered (names o) -> ordered (names (set k v o)).
Proof.
  intros Ho. unfold set. destruct (has k o) eqn:Eh.
  - now rewrite keys_replace.
  - apply has_absent in Eh. destruct (array_index k) as [i|] eqn:Ei.
    + now apply ordered_insert_index.
    + unfold names. rewrite map_app. cbn [map fst]. apply ordered_snoc; [assumption|].
      apply Forall_forall. intros k1 H1. split; [intros ->; exact (Eh H1)|].
      rewrite Ei. now destruct (array_index k1).
Qed.

Lemma Forall_set (P : string * value -> Prop) k v o :
  (forall k', P (k', v)) -> Forall P o -> Forall P (set k v o).
Proof.
  intros Hv Ho. unfold set. destruct (has k o).
  - now apply Forall_replace.
  - destruct (array_index k).
    + now apply Forall_insert_index.
    + apply Forall_app. auto.
Qed.

Lemma canonical_set k v o :
  canonical (VObj o) -> canonical v -> canonical (VObj (set k v o)).
Proof.
  intros Ho Hv. inversion Ho; subst. constructor.
  - now apply ordered_set.
  - now apply Forall_set.
Qed.

(** Defining the properties of an object in property order, one after
    the other, rebuilds the object. *)
Lemma ordered_app_before ks1 k ks2 :
  ordered (ks1 ++ k :: ks2) -> Forall (fun k1 => may_precede k1 k) ks1.
Proof.
  induction ks1 as [|k1 ks1 IH]; cbn; [constructor|].
  intros [H1 H2]. constructor; [|auto].
  rewrite Forall_app in H1. destruct H1 as [_ H1]. now inversion H1.
Qed.

Lemma insert_index_last i k v o :
  array_index k = Some i ->
  Forall (fun k1 => may_precede k1 k) (names o) ->
  insert_index i k v o = o ++ [(k, v)].
Proof.
  intros Hi. induction o as [|[k' v'] o IH]; cbn; [reflexivity|].
  intros H. inversion H as [|? ? [_ Hord] Hrest]; subst.
  rewrite Hi in Hord. destruct (array_index k') as [j|]; [|contradiction].
  destruct (N.leb_spec j i); [|lia]. now rewrite IH.
Qed.

Lemma set_last k v o :
  Forall (fun k1 => may_precede k1 k) (names o) -> set k v o = o ++ [(k, v)].
Proof.
  intros H. unfold set.
  assert (Hk : ~ In k (names o)).
  { intros Hin. rewrite Forall_forall in H. destruct (H k Hin) as [Hne _]. congruence. }
  unfold has. rewrite (get_absent k o Hk).
  destruct (array_index k) as [i|] eqn:Ei; [|reflexivity].
  now apply insert_index_last.
Qed.

Lemma spread_ordered o2 :
  forall o1, ordered (names (o1 ++ o2)) -> spread o2 o1 = o1 ++ o2.
Proof.
  unfold spread.
  induction o2 as [|[k v] o2 IH]; intros o1 H; cbn [fold_left fst snd].
  - now rewrite app_nil_r.
  - assert (Hb : Forall (fun k1 => may_precede k1 k) (names o1)).
    { unfold names in H. rewrite map_app in H. cbn in H.
      exact (ordered_app_before _ _ _ H). }
    rewrite (set_last k v o1 Hb).
    rewrite IH; rewrite <- app_assoc; [reflexivity|exact H].
Qed.

Lemma of_entries_ordered o : ordered (names o) -> of_entries o = o.
Proof. intros H. unfold of_entries. now rewrite spread_ordered. Qed.

Lemma canonical_normalize v : canonical v -> normalize v = v.
Proof.
  induction v as [|b|n|s|items IH|props IH] using value_ind;
    intros H; try reflexivity; inversion H as [| | | |? Hitems|? Hord Hprops]; subst;
    cbn [normalize].
  - f_equal. rewrite <- (map_id items) at 2. apply map_ext_in.
    intros x Hx. rewrite Forall_forall in IH, Hitems. auto.
  - f_equal.
    assert (E : map (fun kv => (fst kv, normalize (snd kv))) props = props).
    { rewrite <- (map_id props) at 2. apply map_ext_in.
      intros [k x] Hx. rewrite Forall_forall in IH, Hprops. cbn.
      f_equal. apply (IH (k, x) Hx). apply (Hprops (k, x) Hx). }
    rewrite E. now apply of_entries_ordered.
Qed.

End ObjFacts.

(* ================================================================== *)
(** * What [JSON.parse] returns is a value of the runtime *)
(* ================================================================== *)

Module ParseFacts.
Import JSON ObjFacts.

Ltac break_match_in H :=
  match type of H with
  | context [match ?x with _ => _ end] => destruct x eqn:?; try discriminate H
  end.

Ltac found H := injection H as <- <-.

Lemma parse_number_canonical s v r :
  parse_number s = Some (v, r) -> canonical v.
Proof.
  unfold parse_number. intros H.
  repeat break_match_in H; found H; constructor.
Qed.

Lemma parse_value_canonical_all fuel :
  (forall s v r, parse_value fuel s = Some (v, r) -> canonical v) /\
  (forall acc s v r,
      Forall canonical acc ->
      parse_elements fuel acc s = Some (v, r) -> canonical v) /\
  (forall acc s v r,
      canonical (VObj acc) ->
      parse_members fuel acc s = Some (v, r) -> canonical v).
Proof.
  induction fuel as [|fuel (IHv & IHe & IHm)];
    [repeat split; intros; discriminate|].
  repeat split.
  - intros s v r H. cbn [parse_value] in H.
    destruct (skip_ws s) as [|c r0]; [discriminate|].
    destruct (starts_number c); [now apply parse_number_canonical in H|].
    destruct (c =? dquote)%char.
    { repeat break_match_in H. found H. constructor. }
    destruct (c =? "n")%char.
    { repeat break_match_in H. found H. constructor. }
    destruct (c =? "t")%char.
    { repeat break_match_in H. found H. constructor. }
    destruct (c =? "f")%char.
    { repeat break_match_in H. found H. constructor. }
    destruct (c =? "[")%char.
    { destruct (skip_ws r0) as [|c' r']; [discriminate|].
      destruct (c' =? "]")%char.
      - found H. constructor. constructor.
      - eapply IHe; [|exact H]. constructor. }
    destruct (c =? "{")%char; [|discriminate].
    destruct (skip_ws r0) as [|c' r']; [discriminate|].
    destruct (c' =? "}")%char.
    + found H. constructor; constructor.
    + eapply IHm; [|exact H]. constructor; constructor.
  - intros acc s v r Hacc H. cbn [parse_elements] in H.
    destruct (parse_value fuel s) as [[x r1]|] eqn:Ex; [|discriminate].
    apply IHv in Ex.
    destruct (skip_ws r1) as [|c r2]; [discriminate|].
    destruct (c =? ",")%char.
    { eapply IHe; [|exact H]. now constructor. }
    destruct (c =? "]")%char; [|discriminate].
    found H. constructor. change (Forall canonical (List.rev (x :: acc))).
    apply Forall_rev. now constructor.
  - intros acc s v r Hacc H. cbn [parse_members] in H.
    destruct (skip_ws s) as [|c r0]; [discriminate|].
    destruct (c =? dquote)%char; [|discriminate].
    destruct (parse_string r0) as [[key r1]|]; [|discriminate].
    destruct (skip_ws r1) as [|c1 r2]; [discriminate|].
    destruct (c1 =? ":")%char; [|discriminate].
    destruct (parse_value fuel r2) as [[x r3]|] eqn:Ex; [|discriminate].
    apply IHv in Ex.
    destruct (skip_ws r3) as [|c3 r4]; [discriminate|].
    destruct (c3 =? ",")%char.
    { eapply IHm; [|exact H]. now apply canonical_set. }
    destruct (c3 =? "}")%char; [|discriminate].
    found H. now apply canonical_set.
Qed.

Lemma parse_canonical s v : parse s = Some v -> canonical v.
Proof.
  unfold parse. intros H.
  destruct (parse_value _ s) as [[x r]|] eqn:E; [|discriminate].
  destruct (skip_ws r); [|discriminate].
  injection H as <-.
  exact (proj1 (parse_value_canonical_all _) _ _ _ E).
Qed.

(** Printing and parsing a value of the runtime gives it back. *)
Lemma parse_print_canonical v k :
  canonical v -> JSONSpec.follow_ok k -> skip_ws k = EmptyString ->
  parse (print 0 v k) = Some v.
Proof.
  intros Hv Hk Hws. rewrite JSONFacts.parse_print by assumption.
  now rewrite canonical_normalize.
Qed.

End ParseFacts.

(* ================================================================== *)
(** * The repository: load and save *)
(* ================================================================== *)

Module RepositoryFacts.
Import ObjFacts.

Lemma load_stored w : loadSnippets w = (Ok (stored w), w).
Proof.
  unfold loadSnippets, try_catch, readJson, stored, file_at.
  destruct (snippet_file w) as [| |text]; try reflexivity.
  destruct (JSON.parse text); reflexivity.
Qed.

Lemma stored_canonical w : canonical (stored w).
Proof.
  unfold stored. destruct (snippet_file w) as [| |text];
    try (constructor; constructor).
  destruct (JSON.parse text) eqn:E; [|constructor; constructor].
  now apply ParseFacts.parse_canonical in E.
Qed.

Lemma parse_written v :
  canonical v -> JSON.parse (JSON.print 0 v nl) = Some v.
Proof.
  intros Hv. apply ParseFacts.parse_print_canonical; auto.
  right. reflexivity.
Qed.

Lemma stored_written text w :
  stored (set_file SNIPPET_FILE (Content text) w)
  = match JSON.parse text with
    | Some v => v
    | None => VArr []
    end.
Proof. reflexivity. Qed.

Lemma save_result v w :
  saveSnippets v w
  = (Ok tt, emit (Log green "Snippets saved!")
              (set_file SNIPPET_FILE (Content (JSON.print 0 v nl)) w)).
Proof. reflexivity. Qed.

Lemma stored_saved v w :
  canonical v -> stored (snd (saveSnippets v w)) = v.
Proof.
  intros Hv. rewrite save_result. unfold stored, emit, set_file.
  cbn [snd snippet_file]. now rewrite parse_written.
Qed.

(** ** Records are values of the runtime *)

Lemma canonical_strings l : Forall canonical (map VStr l).
Proof. induction l; constructor; auto. constructor. Qed.

Lemma ordered_record_keys :
  ordered ["id"; "title"; "code"; "language"; "tags"; "category";
           "description"; "createdAt"].
Proof.
  cbn [ordered]. repeat split; repeat constructor; discriminate.
Qed.

Lemma canonical_snippet s : canonical (snippet_value s).
Proof.
  constructor; [exact ordered_record_keys|].
  repeat (apply Forall_cons; [cbn [snd]|]); try solve [constructor].
  constructor. apply canonical_strings.
Qed.

Lemma canonical_collection rs : canonical (collection rs).
Proof.
  constructor. induction rs; constructor; auto using canonical_snippet.
Qed.

(** Every collection of records is the content of some backing file. *)
Lemma stored_collection rs w :
  stored (set_file SNIPPET_FILE (Content (JSON.print 0 (collection rs) nl)) w)
  = collection rs.
Proof.
  unfold stored, set_file. cbn [snippet_file].
  now rewrite parse_written by apply canonical_collection.
Qed.

End RepositoryFacts.

(* ================================================================== *)
(** * Prompts, and the record that Add stores *)
(* ================================================================== *)

Module AddFacts.
Import ObjFacts RepositoryFacts.

(** Worlds are compared field by field, after the updates are carried
    out innermost first. *)
Ltac world_fields :=
  cbv [set_responses emit emits set_file set_clipboard
       snippet_file export_json export_markdown terminal clipboard responses].

Ltac list_assoc :=
  repeat (rewrite <- app_assoc || rewrite <- app_comm_cons); cbn [app].

Lemma emits_emit o outs w : emits outs (emit o w) = emits (o :: outs) w.
Proof. unfold emits, emit. cbn. now rewrite <- app_assoc. Qed.

Lemma emits_emits l1 l2 w : emits l2 (emits l1 w) = emits (l1 ++ l2) w.
Proof. unfold emits. cbn. now rewrite <- app_assoc. Qed.

Lemma emit_emits o w : emit o w = emits [o] w.
Proof. reflexivity. Qed.

Lemma no_default r :
  (if (r =? EmptyString)%string then EmptyString else r) = r.
Proof. now destruct r. Qed.

Lemma validate_title_nonempty t :
  t <> EmptyString -> validate_title (VStr t) = Valid.
Proof. intros H. now destruct t. Qed.

(** The title is asked again after each empty answer. *)
Lemma title_loop k t rest w :
  t <> EmptyString ->
  answer_loop title_question (repeat EmptyString k ++ t :: rest) w
  = (Ok (VStr t),
     set_responses rest (emits (repeat (Rejected "Title is required") k) w)).
Proof.
  intros Ht. destruct t as [|a t]; [congruence|]. clear Ht.
  revert w. induction k as [|k IH]; intros w.
  - unfold emits, set_responses. cbn. now rewrite app_nil_r.
  - cbn [repeat app]. remember (String a t) as title.
    cbn. subst title. rewrite IH, emits_emit. reflexivity.
Qed.

(** A question without validation takes the next answer. *)
Lemma ask_next q r rest w :
  qvalidate q = None -> responses w = r :: rest ->
  ask q w
  = (Ok (match qfilter q with
         | Some f => f (match qdefault q with
                        | Some d => or_default d r
                        | None => r
                        end)
         | None => VStr (match qdefault q with
                         | Some d => or_default d r
                         | None => r
                         end)
         end),
     set_responses rest (emit (Ask (qmessage q)) w)).
Proof.
  intros Hv Hr. unfold ask. cbn [responses emit]. rewrite Hr.
  cbn [answer_loop]. rewrite Hv.
  destruct (qdefault q); unfold or_default; [reflexivity|].
  now rewrite no_default.
Qed.

Lemma add_prompt k t c l tg cat d rest w :
  t <> EmptyString ->
  responses w = repeat EmptyString k ++ t :: c :: l :: tg :: cat :: d :: rest ->
  inquirer_prompt add_questions w
  = (Ok (answers_object t c (or_default "javascript" l) (tags_filter tg)
           (or_default "General" cat) d),
     set_responses rest
       (emits (Ask "Snippet title:" :: repeat (Rejected "Title is required") k
               ++ add_asks_after_title) w)).
Proof.
  intros Ht Hr. destruct w as [sf ej em term clip resp]. cbn in Hr. subst resp.
  unfold inquirer_prompt, add_questions. cbn [prompt_all]. unfold bind at 1.
  unfold ask at 1. cbn [responses qmessage title_question].
  rewrite title_loop by assumption.
  unfold bind.
  repeat (erewrite ask_next; [|reflexivity|reflexivity]).
  cbn [ret qfilter qdefault qname title_question code_question language_question
       tags_question category_question description_question qmessage].
  unfold ret. f_equal.
  world_fields. unfold add_asks_after_title.
  f_equal. rewrite <- !app_assoc. reflexivity.
Qed.

(** The record literal of [add], for the answers of the six questions. *)
Lemma new_record_entered count t c l tgs cat d now :
  new_record count (answers_object t c l tgs cat d) now
  = snippet_value (mkSnippet (Z.of_nat count + 1) t c l tgs cat d now).
Proof. reflexivity. Qed.

Lemma add_result k t c l tg cat d rest now items w :
  t <> EmptyString ->
  responses w = repeat EmptyString k ++ t :: c :: l :: tg :: cat :: d :: rest ->
  stored w = VArr items ->
  addSnippet now w
  = (Ok tt,
     set_responses rest
       (emits (add_dialogue k t)
          (set_file SNIPPET_FILE
             (Content (JSON.print 0
                (VArr (items ++ [snippet_value
                                   (entered (List.length items) t c l tg cat d now)]))
                nl)) w))).
Proof.
  intros Ht Hr Hs. unfold addSnippet. unfold bind at 1.
  rewrite (add_prompt k t c l tg cat d rest w Ht Hr).
  unfold bind at 1. rewrite load_stored.
  assert (Hs' : stored (set_responses rest
              (emits (Ask "Snippet title:" :: repeat (Rejected "Title is required") k
                      ++ add_asks_after_title) w)) = VArr items) by exact Hs.
  rewrite Hs'. rewrite new_record_entered.
  unfold bind. rewrite save_result. cbn [console_log Obj.get answers_object String.eqb
    Ascii.eqb Bool.eqb show to_string].
  unfold console_log. f_equal.
  destruct w as [sf ej em term clip resp].
  world_fields. unfold add_dialogue, add_asks_after_title, entered.
  f_equal. list_assoc. reflexivity.
Qed.

(** After a successful Add the backing file holds the collection with
    the new record at its end. *)
Lemma add_stores_record k t c l tg cat d rest now items w :
  t <> EmptyString ->
  responses w = repeat EmptyString k ++ t :: c :: l :: tg :: cat :: d :: rest ->
  stored w = VArr items ->
  stored (snd (addSnippet now w))
  = VArr (items ++ [snippet_value (entered (List.length items) t c l tg cat d now)]).
Proof.
  intros Ht Hr Hs.
  rewrite (add_result k t c l tg cat d rest now items w Ht Hr Hs).
  cbn [snd]. unfold stored. world_fields.
  rewrite parse_written; [reflexivity|].
  pose proof (stored_canonical w) as Hc. rewrite Hs in Hc.
  inversion Hc; subst. constructor. apply Forall_app. split; [assumption|].
  constructor; [apply canonical_snippet|constructor].
Qed.

End AddFacts.

(* ================================================================== *)
(** * Splitting and trimming *)
(* ================================================================== *)

Module StringFacts.

Lemma split_nonempty sep s : split sep s <> [].
Proof.
  destruct s as [|c r]; cbn; [discriminate|].
  destruct (c =? sep)%char; [discriminate|].
  destruct (split sep r); discriminate.
Qed.

(** The tokens, joined by the separator, are the text that was split. *)
Lemma join_split s : join "," (split "," s) = s.
Proof.
  induction s as [|c r IH]; [reflexivity|]. cbn [split].
  pose proof (split_nonempty "," r) as Hn.
  destruct (Ascii.eqb_spec c ",") as [->|Hc];
    (destruct (split "," r) as [|t ts]; [congruence|]);
    rewrite <- IH; destruct ts; reflexivity.
Qed.

Lemma split_tokens_no_comma s :
  Forall (fun token => all_chars not_comma token = true) (split "," s).
Proof.
  induction s as [|c r IH]; cbn [split]; [repeat constructor|].
  destruct (c =? ",")%char eqn:Ec; [constructor; [reflexivity|assumption]|].
  destruct (split "," r) as [|t ts]; [repeat constructor; cbn; unfold not_comma; now rewrite Ec|].
  inversion IH; subst. constructor; [|assumption].
  cbn. unfold not_comma at 1. now rewrite Ec.
Qed.

Lemma trimStart_parts s :
  exists before, s = before +++ trimStart s /\ all_chars is_space before = true.
Proof.
  induction s as [|c r (b & E & Hb)]; [now exists EmptyString|]. cbn [trimStart].
  destruct (is_space c) eqn:Ec.
  - exists (String c b). cbn. rewrite Ec, Hb. now rewrite <- E.
  - now exists EmptyString.
Qed.

Lemma trimEnd_parts s :
  exists after, s = trimEnd s +++ after /\ all_chars is_space after = true.
Proof.
  induction s as [|c r (a & E & Ha)]; [now exists EmptyString|]. cbn [trimEnd].
  destruct (trimEnd r) as [|c' r'] eqn:Er.
  - cbn [String.append] in E. subst a.
    destruct (is_space c) eqn:Ec.
    + exists (String c r). cbn. now rewrite Ec, Ha.
    + now exists r.
  - exists a. split; [|assumption].
    change (String c (String c' r') +++ a) with (String c (String c' r' +++ a)).
    now rewrite <- E.
Qed.

Lemma append_assoc (a b c : string) : (a +++ b) +++ c = a +++ (b +++ c).
Proof. induction a; cbn; congruence. Qed.

Lemma trimStart_head s : starts_with_space (trimStart s) = false.
Proof.
  induction s as [|c r IH]; [reflexivity|]. cbn [trimStart].
  destruct (is_space c) eqn:Ec; [assumption|]. exact Ec.
Qed.

Lemma trimEnd_head s :
  starts_with_space s = false -> starts_with_space (trimEnd s) = false.
Proof.
  destruct s as [|c r]; [reflexivity|]. cbn [trimEnd starts_with_space].
  intros Hc. destruct (trimEnd r); [rewrite Hc|]; assumption || reflexivity.
Qed.

Lemma trimEnd_tail s : ends_with_space (trimEnd s) = false.
Proof.
  induction s as [|c r IH]; [reflexivity|]. cbn [trimEnd].
  destruct (trimEnd r) as [|c' r'] eqn:Er.
  - destruct (is_space c) eqn:Ec; [reflexivity|exact Ec].
  - exact IH.
Qed.

(** [trim] removes white space at both ends, and nothing else. *)
Lemma trim_trimmed s : trimmed_from s (trim s).
Proof.
  unfold trimmed_from, trim. repeat split.
  - destruct (trimStart_parts s) as (b & Eb & Hb).
    destruct (trimEnd_parts (trimStart s)) as (a & Ea & Ha).
    exists b, a. repeat split; try assumption.
    now rewrite <- Ea.
  - apply trimEnd_head, trimStart_head.
  - apply trimEnd_tail.
Qed.

Lemma all_chars_trimStart p s :
  all_chars p s = true -> all_chars p (trimStart s) = true.
Proof.
  induction s as [|c r IH]; [reflexivity|]. cbn [trimStart]. intros H.
  destruct (is_space c); [|assumption].
  cbn in H. apply andb_true_iff in H. now apply IH.
Qed.

Lemma all_chars_trimEnd p s :
  all_chars p s = true -> all_chars p (trimEnd s) = true.
Proof.
  induction s as [|c r IH]; [reflexivity|]. cbn [trimEnd]. intros H.
  cbn in H. apply andb_true_iff in H. destruct H as [Hc Hr].
  specialize (IH Hr).
  destruct (trimEnd r) as [|c' r'].
  - destruct (is_space c); [reflexivity|]. cbn. now rewrite Hc.
  - cbn [all_chars] in *. now rewrite Hc, IH.
Qed.

Lemma all_chars_trim p s : all_chars p s = true -> all_chars p (trim s) = true.
Proof. intros H. now apply all_chars_trimEnd, all_chars_trimStart. Qed.

Lemma tags_filter_by_spec s : tags_filter s = tags_by_spec s.
Proof.
  unfold tags_filter, tags_by_spec.
  induction (split "," s) as [|token l IH]; [reflexivity|].
  cbn [map filter flat_map]. rewrite IH.
  now destruct (trim token).
Qed.

Lemma tags_filter_each s :
  Forall (fun tag => exists token,
              In token (split "," s) /\ tag = trim token /\ tag <> EmptyString)
         (tags_filter s).
Proof.
  unfold tags_filter. apply Forall_forall. intros tag H.
  apply filter_In in H. destruct H as [Hin Ht].
  apply in_map_iff in Hin. destruct Hin as (token & <- & Hin).
  exists token. repeat split; [assumption|].
  intros E. rewrite E in Ht. discriminate.
Qed.

End StringFacts.

(* ================================================================== *)
(** * What the program prints for a record *)
(* ================================================================== *)

Module RenderFacts.
Import AddFacts StringFacts.

Lemma strings_shown l :
  map (fun x => match x with VNull => EmptyString | _ => to_string x end)
      (map VStr l) = l.
Proof. induction l as [|x l IH]; cbn; congruence. Qed.

Lemma join_tags s sep :
  call_join (Obj.get "tags" (match snippet_value s with
                             | VObj o => o
                             | _ => []
                             end)) sep
  = Ok (join sep (tags s)).
Proof. cbn. now rewrite strings_shown. Qed.

Lemma description_shown s :
  show (or_else (Some (VStr (description s))) (Some (VStr "None")))
  = description_or_none s.
Proof.
  unfold or_else, description_or_none. cbn.
  now destruct (description s =? EmptyString)%string.
Qed.

Lemma headline_snippet s w :
  headline (snippet_value s) w = (Ok tt, emit (headline_of s) w).
Proof. reflexivity. Qed.

Lemma category_line_snippet s w :
  category_line (snippet_value s) w
  = (Ok tt, emit (Log plain ("  Category: " +++ category_of s)) w).
Proof. reflexivity. Qed.

Lemma tags_line_snippet s w :
  tags_line (snippet_value s) w
  = (Ok tt, emit (Log plain ("  Tags: " +++ join ", " (tags s))) w).
Proof.
  unfold tags_line, bind, lift. cbn [prop snippet_value Obj.get String.eqb Ascii.eqb Bool.eqb].
  cbn [call_join]. rewrite strings_shown. reflexivity.
Qed.

(** [join] is the concatenation with separator of the library. *)
Lemma join_concat sep l : join sep l = String.concat sep l.
Proof.
  induction l as [|x l IH]; [reflexivity|].
  destruct l as [|y l]; [reflexivity|].
  cbn [join String.concat] in *. now rewrite IH.
Qed.

(** One section of the markdown document. *)
Lemma markdown_section_snippet s markdown :
  markdown_section (snippet_value s) markdown
  = Ok (markdown +++ markdown_section_of s).
Proof.
  unfold markdown_section.
  cbn [prop snippet_value Obj.get String.eqb Ascii.eqb Bool.eqb call_join].
  rewrite strings_shown, description_shown, join_concat.
  unfold markdown_section_of. cbn [show to_string].
  rewrite !append_assoc. reflexivity.
Qed.

Lemma markdown_loop_snippets rs markdown :
  markdown_loop (map snippet_value rs) markdown
  = Ok (markdown +++ concat_texts (map markdown_section_of rs)).
Proof.
  revert markdown. induction rs as [|s rs IH]; intros markdown; cbn [map markdown_loop concat_texts].
  - f_equal. clear. induction markdown; cbn; congruence.
  - rewrite markdown_section_snippet, IH. now rewrite append_assoc.
Qed.

End RenderFacts.

(* ================================================================== *)
(** * Filtering and listing records *)
(* ================================================================== *)

Module ListFacts.
Import RepositoryFacts AddFacts RenderFacts.

Lemma In_all_ascii c : In c all_ascii.
Proof.
  rewrite <- (ascii_nat_embedding c). apply in_map, in_seq.
  pose proof (nat_ascii_bounded c). lia.
Qed.

(** Lower case decides the letter: two characters have the same lower
    case exactly when they are the same letter. *)
Lemma lower_char_same a b :
  (lower_char a =? lower_char b)%char = same_letter a b.
Proof.
  assert (H : forallb (fun a => forallb (fun b =>
                Bool.eqb (lower_char a =? lower_char b)%char (same_letter a b))
                all_ascii) all_ascii = true) by (vm_compute; reflexivity).
  rewrite forallb_forall in H. specialize (H a (In_all_ascii a)).
  rewrite forallb_forall in H. specialize (H b (In_all_ascii b)).
  now apply Bool.eqb_prop in H.
Qed.

Lemma lower_equal a :
  forall b, (toLowerCase a =? toLowerCase b)%string = equal_ignoring_case a b.
Proof.
  induction a as [|c a IH]; intros [|d b]; try reflexivity.
  cbn [toLowerCase equal_ignoring_case String.eqb].
  rewrite <- lower_char_same, <- IH.
  now destruct (lower_char c =? lower_char d)%char.
Qed.

Lemma filter_language wanted rs :
  filter_items (same_ignoring_case "language" wanted) (map snippet_value rs)
  = Ok (map snippet_value
          (filter (fun s => equal_ignoring_case (language s) wanted) rs)).
Proof.
  induction rs as [|s rs IH]; [reflexivity|].
  cbn [map filter_items filter]. rewrite IH.
  change (same_ignoring_case "language" wanted (snippet_value s))
    with (Ok (toLowerCase (language s) =? toLowerCase wanted)%string).
  rewrite lower_equal.
  now destruct (equal_ignoring_case (language s) wanted).
Qed.

Lemma filter_category wanted rs :
  filter_items (same_ignoring_case "category" wanted) (map snippet_value rs)
  = Ok (map snippet_value
          (filter (fun s => equal_ignoring_case (category_of s) wanted) rs)).
Proof.
  induction rs as [|s rs IH]; [reflexivity|].
  cbn [map filter_items filter]. rewrite IH.
  change (same_ignoring_case "category" wanted (snippet_value s))
    with (Ok (toLowerCase (category_of s) =? toLowerCase wanted)%string).
  rewrite lower_equal.
  now destruct (equal_ignoring_case (category_of s) wanted).
Qed.

Lemma filter_filter {A} (p q : A -> bool) l :
  filter q (filter p l) = filter (fun x => p x && q x) l.
Proof.
  induction l as [|x l IH]; [reflexivity|]. cbn.
  destruct (p x); cbn; [destruct (q x)|]; now rewrite IH.
Qed.

Lemma filter_all {A} (l : list A) : filter (fun _ => true) l = l.
Proof. induction l; cbn; congruence. Qed.

(** The lines of a listing, record after record. *)
Lemma list_each l w :
  for_each (fun snippet =>
              headline snippet ;;
              category_line snippet ;;
              tags_line snippet ;;
              console_log plain "---")
           (map snippet_value l) w
  = (Ok tt, emits (flat_map listed l) w).
Proof.
  revert w. induction l as [|s l IH]; intros w.
  - cbn. unfold ret, emits. destruct w. cbn. now rewrite app_nil_r.
  - cbn [map for_each flat_map]. unfold bind.
    rewrite headline_snippet, category_line_snippet, tags_line_snippet.
    unfold console_log. rewrite IH.
    rewrite !emit_emits, !emits_emits. reflexivity.
Qed.

(** Listing the records of a typed collection. *)
Lemma list_tail l w :
  (empty <- lift (length_is_falsy (collection l)) ;;
   if (empty : bool) then console_log yellow "No snippets found."
   else
     call_forEach (collection l) (fun snippet =>
       headline snippet ;;
       category_line snippet ;;
       tags_line snippet ;;
       console_log plain "---")) w
  = (Ok tt, emits (listing l) w).
Proof.
  destruct l as [|s l]; [reflexivity|].
  unfold bind, lift, collection. cbn [map length_is_falsy call_forEach].
  exact (list_each (s :: l) w).
Qed.

(** The two filter steps of List, on a collection of records. *)
Lemma language_step (o : option string) rs w :
  (if truthy (option_value o) then
     lift (call_filter (collection rs)
             (same_ignoring_case "language"
                (match o with Some l => l | None => EmptyString end)))
   else ret (collection rs)) w
  = (Ok (collection (filter (fun s => passes (effective o) (language s)) rs)), w).
Proof.
  destruct o as [[|a l]|]; cbn [option_value truthy negb String.eqb effective passes];
    try (unfold ret; now rewrite filter_all).
  unfold lift, collection. cbn [call_filter]. now rewrite filter_language.
Qed.

Lemma category_step (o : option string) rs w :
  (if truthy (option_value o) then
     lift (call_filter (collection rs)
             (same_ignoring_case "category"
                (match o with Some c => c | None => EmptyString end)))
   else ret (collection rs)) w
  = (Ok (collection (filter (fun s => passes (effective o) (category_of s)) rs)), w).
Proof.
  destruct o as [[|a l]|]; cbn [option_value truthy negb String.eqb effective passes];
    try (unfold ret; now rewrite filter_all).
  unfold lift, collection. cbn [call_filter]. now rewrite filter_category.
Qed.

Lemma list_result rs o w :
  stored w = collection rs ->
  listSnippets o w = (Ok tt, emits (listing (filter (kept o) rs)) w).
Proof.
  intros Hs. unfold listSnippets. unfold bind at 1. rewrite load_stored, Hs.
  unfold bind at 1. rewrite language_step.
  unfold bind at 1. rewrite category_step.
  rewrite filter_filter. apply list_tail.
Qed.

End ListFacts.

(* ================================================================== *)
(** * Showing search results and copying a record *)
(* ================================================================== *)

Module SearchFacts.
Import RepositoryFacts AddFacts RenderFacts.

Section WithMatcher.

Variable fuse_search : value -> fuse_options -> string -> result (list value).

Lemma print_result_snippet s w :
  print_result (snippet_value s) w = (Ok tt, emits (shown s) w).
Proof.
  unfold print_result. unfold bind.
  rewrite headline_snippet, category_line_snippet, tags_line_snippet.
  cbn [lift prop snippet_value Obj.get String.eqb Ascii.eqb Bool.eqb].
  rewrite description_shown. unfold console_log.
  rewrite !emit_emits, !emits_emits. reflexivity.
Qed.

Lemma show_each res w :
  for_each print_result (map snippet_value res) w
  = (Ok tt, emits (flat_map shown res) w).
Proof.
  revert w. induction res as [|s l IH]; intros w.
  - cbn. unfold ret, emits. destruct w. cbn. now rewrite app_nil_r.
  - cbn [map for_each flat_map]. unfold bind.
    rewrite print_result_snippet, IH, emits_emits. reflexivity.
Qed.

(** Looking a record up by the number read from the response. *)
Lemma find_by_id (n : option Z) rs :
  find_item (fun s =>
               match prop "id" s with
               | Ok id => Ok (strict_eq_number id n)
               | Throw e => Throw e
               end)
            (map snippet_value rs)
  = Ok (option_map snippet_value
          (match n with
           | Some k => find (fun s => id s =? k) rs
           | None => None
           end)).
Proof.
  induction rs as [|s rs IH]; [now destruct n|].
  cbn [map find_item find].
  change (prop "id" (snippet_value s)) with (Ok (Some (VNum (id s)))).
  unfold strict_eq_number at 1. destruct n as [k|]; [|exact IH].
  destruct (id s =? k); [reflexivity|exact IH].
Qed.

Lemma copy_prompt response others w :
  inquirer_prompt [copy_question] (set_responses (response :: others) w)
  = (Ok [("copyId", VStr response)],
     set_responses others (emit (Ask copy_message) w)).
Proof.
  unfold inquirer_prompt. cbn [prompt_all]. unfold bind.
  rewrite (ask_next copy_question response others) by reflexivity.
  cbn [qfilter qdefault copy_question qname qmessage]. unfold ret.
  reflexivity.
Qed.

(** Search on a collection of records, up to the copy prompt. *)
Lemma search_result rs res query response others w :
  stored w = collection rs ->
  fuse_search (collection rs) search_options query = Ok (map snippet_value res) ->
  res <> [] ->
  let asked :=
    set_responses others (emits (flat_map shown res ++ [Ask copy_message]) w) in
  searchSnippets fuse_search query (set_responses (response :: others) w)
  = (Ok tt,
     if (response =? EmptyString)%string then asked
     else match resolve rs response with
          | Some s =>
              emit (Log green ("Snippet " +++ quoted (title s)
                               +++ " copied to clipboard!"))
                   (set_clipboard (code s) asked)
          | None => emit (Log red "Invalid snippet ID.") asked
          end).
Proof.
  intros Hs Hf Hres asked. unfold searchSnippets. unfold bind at 1.
  rewrite load_stored.
  change (stored (set_responses (response :: others) w)) with (stored w).
  rewrite Hs. unfold bind at 1. unfold lift at 1. rewrite Hf.
  destruct res as [|r0 res']; [congruence|].
  remember (r0 :: res') as res eqn:Eres.
  assert (Hm : map snippet_value res = snippet_value r0 :: map snippet_value res')
    by now subst res.
  rewrite Hm. rewrite <- Hm.
  unfold bind at 1. rewrite show_each.
  unfold bind at 1.
  assert (Hw : emits (flat_map shown res) (set_responses (response :: others) w)
               = set_responses (response :: others) (emits (flat_map shown res) w))
    by reflexivity.
  rewrite Hw, copy_prompt.
  assert (Ha : set_responses others
                 (emit (Ask copy_message) (emits (flat_map shown res) w)) = asked).
  { unfold asked. rewrite emit_emits, emits_emits. reflexivity. }
  rewrite Ha.
  cbn [Obj.get String.eqb Ascii.eqb Bool.eqb truthy show to_string].
  destruct (response =? EmptyString)%string eqn:Er; cbn [negb]; [reflexivity|].
  unfold bind at 1. unfold lift at 1. unfold collection. cbn [call_find].
  rewrite find_by_id. unfold resolve.
  destruct (match parseInt response with
            | Some k => find (fun s => id s =? k) rs
            | None => None
            end) as [s|]; reflexivity.
Qed.

End WithMatcher.

End SearchFacts.

(* ================================================================== *)
(** * Reading a number from a response *)
(* ================================================================== *)

Module ParseIntFacts.
Import JSONSpec JSONFacts.

Lemma of_uint_acc_value u :
  forall p, Z.pos (Pos.of_uint_acc u p) = uint_value u (Z.pos p).
Proof.
  induction u; intros p; cbn [Pos.of_uint_acc uint_value];
    rewrite ?IHu; f_equal; lia.
Qed.

Lemma of_uint_value u : Z.of_uint u = uint_value u 0.
Proof.
  unfold Z.of_uint.
  induction u; cbn [Pos.of_uint uint_value Z.of_N]; try reflexivity;
    try (rewrite of_uint_acc_value; reflexivity).
  exact IHu.
Qed.

(** The digits of a printed number, read in base ten. *)
Lemma digits_prefix_print u :
  forall acc,
    digits_prefix 10 (JSON.print_uint u EmptyString) acc
    = match u with
      | Nil => acc
      | _ => Some (uint_value u (match acc with Some a => a | None => 0 end))
      end.
Proof.
  induction u; intros acc; cbn [JSON.print_uint digits_prefix]; [reflexivity|..].
  all: match goal with
       | |- context [radix_digit 10 ?c] =>
           let r := eval vm_compute in (radix_digit 10 c) in
           change (radix_digit 10 c) with r
       end; cbv iota beta; rewrite IHu; cbn [uint_value];
       destruct u; reflexivity.
Qed.

Lemma parseInt_unsigned c r :
  is_space c = false -> (c =? "-")%char = false -> (c =? "+")%char = false ->
  (c =? "0")%char = false ->
  parseInt (String c r) = digits_prefix 10 (String c r) None.
Proof.
  intros Hs Hm Hp Hz. unfold parseInt. cbn [trimStart]. rewrite Hs, Hm, Hp.
  destruct r as [|x r]; rewrite ?Hz; cbv beta iota zeta; cbn [andb];
    now destruct (digits_prefix 10 _ None).
Qed.

Lemma parseInt_negative c r :
  (c =? "0")%char = false ->
  parseInt (String "-" (String c r))
  = match digits_prefix 10 (String c r) None with
    | Some n => Some (- n)
    | None => None
    end.
Proof.
  intros Hz. unfold parseInt. cbn [trimStart].
  assert (Hs : is_space "-" = false) by reflexivity.
  rewrite Hs, Ascii.eqb_refl. cbv beta iota zeta.
  destruct r as [|x r]; rewrite ?Hz; cbv beta iota zeta; cbn [andb]; reflexivity.
Qed.

Lemma parseInt_digits (neg : bool) u :
  plain_uint u ->
  parseInt (if neg then String "-" (JSON.print_uint u EmptyString)
            else JSON.print_uint u EmptyString)
  = Some (Z.of_int (if neg then Neg u else Pos u)).
Proof.
  intros Hu.
  pose proof (digits_prefix_print u None) as D.
  pose proof (of_uint_value u) as V.
  destruct neg; cbn [Z.of_int]; rewrite V;
    (destruct u as [|u|u|u|u|u|u|u|u|u|u]; try contradiction;
     [destruct u; try contradiction; reflexivity|..]);
    cbn [JSON.print_uint] in *;
    first [rewrite parseInt_negative by reflexivity
          |rewrite parseInt_unsigned by reflexivity];
    now rewrite D.
Qed.

(** [parseInt] reads a printed number back. *)
Lemma parseInt_shown n : parseInt (shown_id n) = Some n.
Proof.
  unfold shown_id, JSON.print_number.
  destruct (to_int_plain n) as (neg & u & E & Hu).
  rewrite <- (DecimalZ.of_to n) at 2. rewrite E.
  destruct neg; cbn [JSON.print_int].
  - exact (parseInt_digits true u Hu).
  - exact (parseInt_digits false u Hu).
Qed.

Lemma shown_id_nonempty n : (shown_id n =? EmptyString)%string = false.
Proof.
  destruct (print_number_head n EmptyString) as (c & r & E & _).
  unfold shown_id. now rewrite E.
Qed.

Lemma not_digit_or_sign c :
  is_digit_or_sign c = false ->
  (c =? "-")%char = false /\ (c =? "+")%char = false /\
  (c =? "0")%char = false /\ radix_digit 10 c = None.
Proof.
  assert (H : forallb (fun c =>
                is_digit_or_sign c
                || (negb (c =? "-")%char && negb (c =? "+")%char
                    && negb (c =? "0")%char
                    && match radix_digit 10 c with None => true | Some _ => false end))
                all_ascii = true) by (vm_compute; reflexivity).
  rewrite forallb_forall in H. specialize (H c (ListFacts.In_all_ascii c)).
  intros Hc. rewrite Hc in H. cbn [orb] in H.
  destruct (c =? "-")%char, (c =? "+")%char, (c =? "0")%char,
    (radix_digit 10 c); try discriminate. now repeat split.
Qed.

(** A response that names no number is read as [NaN]. *)
Lemma parseInt_lacks_number s : lacks_number s = true -> parseInt s = None.
Proof.
  intros H.
  assert (T : match trimStart s with
              | EmptyString => True
              | String c _ => is_space c = false /\ is_digit_or_sign c = false
              end).
  { induction s as [|c r IH]; [exact I|]. cbn [lacks_number trimStart] in *.
    destruct (is_space c) eqn:Ec; [now apply IH|].
    rewrite Ec. split; [reflexivity|]. now apply negb_true_iff. }
  unfold parseInt. destruct (trimStart s) as [|c r]; [reflexivity|].
  destruct T as [_ Hc].
  destruct (not_digit_or_sign c Hc) as (Hm & Hp & Hz & Hd).
  rewrite Hm, Hp.
  destruct r as [|x r]; rewrite ?Hz; cbv beta iota zeta; cbn [andb digits_prefix];
    now rewrite Hd.
Qed.

End ParseIntFacts.

(* ================================================================== *)
(** * The operations and the ids of the collection *)
(* ================================================================== *)

Module InvariantFacts.
Import ObjFacts RepositoryFacts AddFacts.

(** ** Operations that leave the backing file alone *)

Lemma keeps_ret {A} (a : A) : keeps_store (ret a).
Proof. intros w. reflexivity. Qed.

Lemma keeps_throw {A} e : keeps_store (@throw A e).
Proof. intros w. reflexivity. Qed.

Lemma keeps_lift {A} (r : result A) : keeps_store (lift r).
Proof. intros w. reflexivity. Qed.

Lemma keeps_bind {A B} (m : M A) (f : A -> M B) :
  keeps_store m -> (forall a, keeps_store (f a)) -> keeps_store (bind m f).
Proof.
  intros Hm Hf w. unfold bind. specialize (Hm w).
  destruct (m w) as [[a|e] w1]; cbn [snd] in *; [|assumption].
  now rewrite Hf.
Qed.

Lemma keeps_console_log c text : keeps_store (console_log c text).
Proof. intros w. reflexivity. Qed.

Lemma keeps_load : keeps_store loadSnippets.
Proof. intros w. now rewrite load_stored. Qed.

Lemma keeps_write p text : p <> SNIPPET_FILE -> keeps_store (writeFile p text).
Proof. intros Hp w. destruct p; [congruence| |]; reflexivity. Qed.

Lemma keeps_clipboard e : keeps_store (clipboardy_writeSync e).
Proof. intros w. destruct e as [[]|]; reflexivity. Qed.

Lemma answer_loop_keeps q rs w :
  snippet_file (snd (answer_loop q rs w)) = snippet_file w.
Proof.
  revert w. induction rs as [|r rs IH]; intros w; cbn [answer_loop]; [reflexivity|].
  destruct (match qvalidate q with Some check => _ | None => Valid end);
    [reflexivity|]. now rewrite IH.
Qed.

Lemma keeps_ask q : keeps_store (ask q).
Proof. intros w. unfold ask. now rewrite answer_loop_keeps. Qed.

Lemma keeps_prompt_all qs : forall answers, keeps_store (prompt_all qs answers).
Proof.
  induction qs as [|q qs IH]; intros answers; cbn [prompt_all].
  - apply keeps_ret.
  - apply keeps_bind; [apply keeps_ask|]. intros v. apply IH.
Qed.

Lemma keeps_prompt qs : keeps_store (inquirer_prompt qs).
Proof. apply keeps_prompt_all. Qed.

Lemma keeps_for_each (f : value -> M unit) items :
  (forall x, keeps_store (f x)) -> keeps_store (for_each f items).
Proof.
  intros Hf. induction items as [|x l IH]; cbn [for_each].
  - apply keeps_ret.
  - apply keeps_bind; [apply Hf|]. intros _. exact IH.
Qed.

Ltac keeps :=
  repeat first
    [ apply keeps_ret | apply keeps_throw | apply keeps_lift
    | apply keeps_console_log | apply keeps_load | apply keeps_prompt
    | apply keeps_clipboard
    | apply keeps_write; discriminate
    | apply keeps_for_each; intro
    | apply keeps_bind; [|intro]
    | match goal with
      | |- keeps_store (if ?b then _ else _) => destruct b
      | |- keeps_store (match ?x with _ => _ end) => destruct x
      end ].

Lemma keeps_print_result x : keeps_store (print_result x).
Proof. unfold print_result, headline, category_line, tags_line. keeps. Qed.

Lemma keeps_search fuse_search query :
  keeps_store (searchSnippets fuse_search query).
Proof.
  unfold searchSnippets. keeps; apply keeps_print_result.
Qed.

Lemma keeps_list o : keeps_store (listSnippets o).
Proof.
  unfold listSnippets, call_forEach, headline, category_line, tags_line. keeps.
Qed.

Lemma keeps_export format : keeps_store (exportSnippets format).
Proof. unfold exportSnippets, writeJson. keeps. Qed.

Lemma stored_same_file w w' :
  snippet_file w' = snippet_file w -> stored w' = stored w.
Proof. unfold stored. now intros ->. Qed.

(** ** The answers that Add collects *)

Lemma answer_loop_value q rs w v w' :
  answer_loop q rs w = (Ok v, w') ->
  exists raw, v = match qfilter q with
                  | Some f => f raw
                  | None => VStr raw
                  end.
Proof.
  revert w. induction rs as [|r rs IH]; intros w; cbn [answer_loop]; [discriminate|].
  destruct (match qvalidate q with Some check => _ | None => Valid end).
  - intros [= <- _]. eexists. reflexivity.
  - apply IH.
Qed.

Lemma ask_value q w v w' :
  ask q w = (Ok v, w') ->
  exists raw, v = match qfilter q with
                  | Some f => f raw
                  | None => VStr raw
                  end.
Proof. unfold ask. apply answer_loop_value. Qed.

Lemma add_answers_shape w answers w' :
  inquirer_prompt add_questions w = (Ok answers, w') ->
  exists t c l tgs cat d, answers = answers_object t c l tgs cat d.
Proof.
  unfold inquirer_prompt, add_questions. cbn [prompt_all]. unfold bind.
  destruct (ask title_question w) as [[v1|?] w1] eqn:E1; [|discriminate].
  destruct (ask code_question w1) as [[v2|?] w2] eqn:E2; [|discriminate].
  destruct (ask language_question w2) as [[v3|?] w3] eqn:E3; [|discriminate].
  destruct (ask tags_question w3) as [[v4|?] w4] eqn:E4; [|discriminate].
  destruct (ask category_question w4) as [[v5|?] w5] eqn:E5; [|discriminate].
  destruct (ask description_question w5) as [[v6|?] w6] eqn:E6; [|discriminate].
  apply ask_value in E1, E2, E3, E4, E5, E6.
  destruct E1 as [t ->], E2 as [c ->], E3 as [l ->], E4 as [tg ->],
           E5 as [cat ->], E6 as [d ->].
  intros [= <- _].
  exists t, c, l, (tags_filter tg), cat, d. reflexivity.
Qed.

(** ** Numbered collections *)

Lemma numbered_empty : numbered (VArr []).
Proof. exists []. split; reflexivity. Qed.

Lemma numbered_snoc items s :
  numbered (VArr items) ->
  id s = Z.of_nat (List.length items) + 1 ->
  numbered (VArr (items ++ [snippet_value s])).
Proof.
  intros (items' & [= <-] & H) Hid. exists (items ++ [snippet_value s]).
  split; [reflexivity|].
  rewrite map_app, length_app, H. cbn [List.length map].
  rewrite Nat.add_1_r, seq_S, map_app. cbn [map].
  do 2 f_equal. unfold id_of. cbn. rewrite Hid. f_equal. lia.
Qed.

Lemma add_numbered now w :
  numbered (stored w) -> numbered (stored (snd (addSnippet now w))).
Proof.
  intros Hn. unfold addSnippet. unfold bind at 1.
  pose proof (keeps_prompt add_questions w) as Hk.
  destruct (inquirer_prompt add_questions w) as [[answers|e] w1] eqn:Ep;
    cbn [snd] in Hk; [|cbn [snd]; now rewrite (stored_same_file _ _ Hk)].
  destruct (add_answers_shape _ _ _ Ep) as (t & c & l & tgs & cat & d & ->).
  unfold bind at 1. rewrite load_stored, (stored_same_file _ _ Hk).
  destruct Hn as (items & Es & Hids). rewrite Es.
  rewrite new_record_entered. unfold bind. rewrite save_result.
  cbn [console_log snd]. unfold stored. world_fields.
  rewrite parse_written.
  - apply numbered_snoc; [|reflexivity]. exists items. now split.
  - pose proof (stored_canonical w) as Hc. rewrite Es in Hc.
    inversion Hc; subst. constructor. apply Forall_app. split; [assumption|].
    constructor; [apply canonical_snippet|constructor].
Qed.

Lemma run_numbered fuse_search c now rs w :
  numbered (stored w) -> numbered (stored (snd (run fuse_search c now rs w))).
Proof.
  intros Hn. unfold run.
  assert (Hn' : numbered (stored (set_responses rs w))) by exact Hn.
  destruct c as [|query|o|format|]; cbn [main].
  - now apply add_numbered.
  - now rewrite (stored_same_file _ _ (keeps_search fuse_search query _)).
  - now rewrite (stored_same_file _ _ (keeps_list o _)).
  - now rewrite (stored_same_file _ _ (keeps_export format _)).
  - exact Hn'.
Qed.

Lemma save_stored w : stored (snd (saveSnippets (stored w) w)) = stored w.
Proof. apply stored_saved, stored_canonical. Qed.

Lemma reachable_numbered fuse_search w :
  reachable fuse_search w -> numbered (stored w).
Proof.
  induction 1 as [w H|w c now rs _ IH|w _ IH|w _ IH].
  - exact H.
  - now apply run_numbered.
  - now rewrite load_stored.
  - now rewrite save_stored.
Qed.

(** ** Numbered ids increase *)

Lemma seq_increasing n : forall a, StronglySorted Z.lt (map Z.of_nat (seq a n)).
Proof.
  induction n as [|n IH]; intros a; cbn [seq map]; constructor; [apply IH|].
  apply Forall_forall. intros x Hx. apply in_map_iff in Hx.
  destruct Hx as (i & <- & Hi). apply in_seq in Hi. lia.
Qed.

Lemma increasing_distinct ns : StronglySorted Z.lt ns -> NoDup ns.
Proof.
  induction 1 as [|a l Hl IH Ha]; constructor; [|assumption].
  intros Hin. rewrite Forall_forall in Ha. specialize (Ha a Hin). lia.
Qed.

Lemma numbered_increasing v :
  numbered v ->
  exists items,
    v = VArr items /\
    ids v = map Some (map Z.of_nat (seq 1 (List.length items))) /\
    StronglySorted Z.lt (map Z.of_nat (seq 1 (List.length items))).
Proof.
  intros (items & -> & H). exists items. repeat split.
  - cbn [ids]. now rewrite H, map_map.
  - apply seq_increasing.
Qed.

End InvariantFacts.

(* ================================================================== *)
(** * Properties of the program *)
(* ================================================================== *)

Import ObjFacts RepositoryFacts AddFacts.

(** C1.  Add appends exactly one record to the collection, and the id
    of the new record is the number of records already there plus one,
    whatever the existing records are and whatever ids they carry.  The
    collection is any array [items] that the backing file holds; the
    user gives a non-empty title, after [k] empty answers to the title
    question, and the five other answers. *)
Theorem add_appends_record_with_next_id :
  forall (items : list value) (w : world) (k : nat)
         (now t c l tg cat d : string) (others : list string),
    stored w = VArr items ->
    t <> EmptyString ->
    let answered :=
      set_responses
        (repeat EmptyString k ++ t :: c :: l :: tg :: cat :: d :: others) w in
    let record := snippet_value (entered (List.length items) t c l tg cat d now) in
    fst (addSnippet now answered) = Ok tt /\
    stored (snd (addSnippet now answered)) = VArr (items ++ [record]) /\
    prop "id" record = Ok (Some (VNum (Z.of_nat (List.length items) + 1))).
Proof.
  intros items w k now t c l tg cat d others Hs Ht answered record.
  repeat split.
  - now rewrite (add_result k t c l tg cat d others now items answered
                   Ht eq_refl Hs).
  - exact (add_stores_record k t c l tg cat d others now items answered
             Ht eq_refl Hs).
Qed.

(** C1 at a collection of two records that both carry the id 7, the
    title given at the second attempt: the new record gets the id 3. *)
Lemma add_appends_record_with_next_id_witness :
  let w := world_with [sample_record 7; sample_record 7] in
  let items := map snippet_value [sample_record 7; sample_record 7] in
  let answered :=
    set_responses
      [EmptyString; "Throttle"; "x"; "python"; "a, b"; "Timing"; "note"] w in
  let record :=
    snippet_value (entered 2 "Throttle" "x" "python" "a, b" "Timing" "note"
                     "2024-05-02T08:00:00.000Z") in
  fst (addSnippet "2024-05-02T08:00:00.000Z" answered) = Ok tt /\
  stored (snd (addSnippet "2024-05-02T08:00:00.000Z" answered))
  = VArr (items ++ [record]) /\
  prop "id" record = Ok (Some (VNum 3)).
Proof.
  apply (add_appends_record_with_next_id
           (map snippet_value [sample_record 7; sample_record 7])
           (world_with [sample_record 7; sample_record 7]) 1
           "2024-05-02T08:00:00.000Z"
           "Throttle" "x" "python" "a, b" "Timing" "note" []).
  - vm_compute. reflexivity.
  - discriminate.
Defined.

(** C2.  When the backing file is absent, unreadable, or holds a text
    that does not parse, the load returns the empty array, throws
    nothing and leaves the world as it is; so does every further
    load. *)
Theorem load_of_unusable_file_is_empty :
  forall (w : world) (n : nat),
    unusable (snippet_file w) ->
    loadSnippets w = (Ok (VArr []), w) /\
    load_repeatedly n w = (Ok (repeat (VArr []) n), w).
Proof.
  intros w n Hw.
  assert (E : loadSnippets w = (Ok (VArr []), w)).
  { rewrite load_stored. unfold stored.
    destruct Hw as [-> | [-> | (text & -> & ->)]]; reflexivity. }
  split; [exact E|].
  induction n as [|n IH]; [reflexivity|].
  cbn [load_repeatedly repeat]. unfold bind. rewrite E, IH. reflexivity.
Qed.

(** C2 for a backing file whose text is not JSON, loaded three times. *)
Lemma load_of_unusable_file_is_empty_witness :
  let w := set_file SNIPPET_FILE (Content "{ not json") fresh in
  loadSnippets w = (Ok (VArr []), w) /\
  load_repeatedly 3 w = (Ok [VArr []; VArr []; VArr []], w).
Proof.
  apply (load_of_unusable_file_is_empty
           (set_file SNIPPET_FILE (Content "{ not json") fresh) 3).
  right. right. exists "{ not json". split; reflexivity.
Defined.

Import StringFacts.

(** C3.  The tags are read from the answer by splitting it at the
    commas, trimming each token and leaving out the tokens that are
    empty once trimmed, in the order of the answer: the tokens joined by
    commas are the answer and hold no comma; a tag is a token without
    its leading and trailing white space; no tag is empty.  The answer
    [react, api, , hooks] gives the tags [react], [api], [hooks]. *)
Theorem tags_are_the_trimmed_nonempty_tokens :
  forall input : string,
    let tokens := split "," input in
    join "," tokens = input /\
    Forall (fun token => all_chars not_comma token = true) tokens /\
    Forall (fun token => trimmed_from token (trim token)) tokens /\
    tags_filter input = tags_by_spec input /\
    Forall (fun tag => tag <> EmptyString /\
                       all_chars not_comma tag = true /\
                       starts_with_space tag = false /\
                       ends_with_space tag = false)
           (tags_filter input) /\
    tags_filter "react, api, , hooks" = ["react"; "api"; "hooks"].
Proof.
  intros input tokens. subst tokens. repeat split.
  - apply join_split.
  - apply split_tokens_no_comma.
  - apply Forall_forall. intros token _. apply trim_trimmed.
  - apply tags_filter_by_spec.
  - pose proof (tags_filter_each input) as H.
    pose proof (split_tokens_no_comma input) as Hc.
    rewrite Forall_forall in *. intros tag Hin.
    destruct (H tag Hin) as (token & Htoken & -> & Hne).
    destruct (trim_trimmed token) as (_ & Hs & He).
    repeat split; try assumption.
    apply all_chars_trim. now apply Hc.
Qed.

(** C5.  For every collection of records, with ids among the integers
    that the runtime holds exactly, the JSON export writes the indented
    text of the collection, and that text is read back as the
    collection itself, records and order included: by the parser, by
    reading the export file, and by the loader from any backing file
    with that content. *)
Theorem json_export_then_load_is_identity :
  forall (rs : list Snippet) (w : world),
    stored w = collection rs ->
    Forall (fun s => safe_integer (id s) = true) rs ->
    let w' := snd (exportSnippets "json" w) in
    let text := JSON.print 0 (collection rs) nl in
    fst (exportSnippets "json" w) = Ok tt /\
    export_json w' = Content text /\
    JSON.parse text = Some (collection rs) /\
    readJson EXPORT_JSON w' = (Ok (collection rs), w') /\
    (forall w0,
        loadSnippets (set_file SNIPPET_FILE (Content text) w0)
        = (Ok (collection rs), set_file SNIPPET_FILE (Content text) w0)).
Proof.
  intros rs w Hs _ w' text.
  assert (Hp : JSON.parse text = Some (collection rs))
    by apply parse_written, canonical_collection.
  assert (E : exportSnippets "json" w
              = (Ok tt,
                 emit (Log green "Snippets exported to snippets-export.json")
                   (set_file EXPORT_JSON (Content text) w))).
  { unfold exportSnippets, bind. now rewrite load_stored, Hs. }
  subst w'. rewrite E. cbn [fst snd]. repeat split; try assumption.
  - unfold readJson. cbn [file_at export_json emit set_file]. now rewrite Hp.
  - intros w0. rewrite load_stored, stored_written. now rewrite Hp.
Qed.

(** C5 for a record whose code holds quotation marks and a line feed,
    the exported text written out. *)
Lemma json_export_then_load_is_identity_witness :
  let rs := [ mkSnippet 1 "Greet" ("say " +++ quoted "hi" +++ nl) "python"
                        ["io"; "demo"] "General" EmptyString
                        "2024-05-01T10:00:00.000Z" ] in
  let text :=
    text_of_lines
      [ "[";
        "  {";
        "    " +++ quoted "id" +++ ": 1,";
        "    " +++ quoted "title" +++ ": " +++ quoted "Greet" +++ ",";
        "    " +++ quoted "code" +++ ": "
               +++ quoted ("say " +++ escaped_quote +++ "hi" +++ escaped_quote
                           +++ escaped_line_feed) +++ ",";
        "    " +++ quoted "language" +++ ": " +++ quoted "python" +++ ",";
        "    " +++ quoted "tags" +++ ": [";
        "      " +++ quoted "io" +++ ",";
        "      " +++ quoted "demo";
        "    ],";
        "    " +++ quoted "category" +++ ": " +++ quoted "General" +++ ",";
        "    " +++ quoted "description" +++ ": " +++ quoted EmptyString +++ ",";
        "    " +++ quoted "createdAt" +++ ": "
               +++ quoted "2024-05-01T10:00:00.000Z";
        "  }";
        "]" ] in
  let w' := snd (exportSnippets "json" (world_with rs)) in
  fst (exportSnippets "json" (world_with rs)) = Ok tt /\
  export_json w' = Content text /\
  JSON.parse text = Some (collection rs) /\
  readJson EXPORT_JSON w' = (Ok (collection rs), w') /\
  loadSnippets (set_file SNIPPET_FILE (Content text) fresh)
  = (Ok (collection rs), set_file SNIPPET_FILE (Content text) fresh).
Proof.
  intros rs text w'.
  destruct (json_export_then_load_is_identity rs (world_with rs)) as (H1 & _).
  - vm_compute. reflexivity.
  - repeat constructor.
  - split; [exact H1|]. repeat split; vm_compute; reflexivity.
Defined.

(** C6.  A format other than [json] and [markdown] makes Export print
    the unsupported-format error and do nothing else: no file is
    written, and the collection is as before. *)
Theorem export_rejects_unknown_format :
  forall (format : string) (w : world),
    format <> "json" -> format <> "markdown" ->
    let w' := snd (exportSnippets format w) in
    exportSnippets format w
    = (Ok tt, emit (Log red unsupported_format_message) w) /\
    export_json w' = export_json w /\
    export_markdown w' = export_markdown w /\
    snippet_file w' = snippet_file w /\
    stored w' = stored w.
Proof.
  intros format w Hj Hm.
  assert (E : exportSnippets format w
              = (Ok tt, emit (Log red unsupported_format_message) w)).
  { unfold exportSnippets, bind. rewrite load_stored.
    apply String.eqb_neq in Hj, Hm. now rewrite Hj, Hm. }
  cbv zeta. rewrite E. repeat split.
Qed.

(** C6 for the format [yaml], with one record in the store. *)
Lemma export_rejects_unknown_format_witness :
  exportSnippets "yaml" (world_with [sample_record 1])
  = (Ok tt, emit (Log red unsupported_format_message)
              (world_with [sample_record 1])) /\
  export_json (snd (exportSnippets "yaml" (world_with [sample_record 1])))
  = Absent /\
  export_markdown (snd (exportSnippets "yaml" (world_with [sample_record 1])))
  = Absent /\
  snippet_file (snd (exportSnippets "yaml" (world_with [sample_record 1])))
  = snippet_file (world_with [sample_record 1]) /\
  stored (snd (exportSnippets "yaml" (world_with [sample_record 1])))
  = stored (world_with [sample_record 1]).
Proof.
  apply (export_rejects_unknown_format "yaml" (world_with [sample_record 1]));
    discriminate.
Defined.

Import RenderFacts.

(** C9.  The markdown export writes one document: the title line, then,
    for each record in collection order, a section made of a level-two
    heading with the title, the language, the category, the tags joined
    by commas, the description ([None] when it is empty), and the code
    in a fenced block whose info string is the language. *)
Theorem markdown_export_lists_every_record :
  forall (rs : list Snippet) (w : world),
    stored w = collection rs ->
    exportSnippets "markdown" w
    = (Ok tt,
       emit (Log green "Snippets exported to snippets-export.md")
         (set_file EXPORT_MARKDOWN (Content (markdown_document rs)) w)).
Proof.
  intros rs w Hs. unfold exportSnippets. unfold bind at 1.
  rewrite load_stored, Hs. cbn [String.eqb Ascii.eqb Bool.eqb].
  unfold collection, bind, lift. rewrite markdown_loop_snippets.
  unfold markdown_document. rewrite !append_assoc. reflexivity.
Qed.

(** C9 for a collection of two records, the first with two tags and no
    description, the document written out. *)
Lemma markdown_export_lists_every_record_witness :
  let rs := [ sample_record 1;
              mkSnippet 2 "Flatten" "[x for l in ls for x in l]" "python"
                        ["lists"] "Idioms" "One level only"
                        "2024-05-02T08:00:00.000Z" ] in
  let outcome := exportSnippets "markdown" (world_with rs) in
  fst outcome = Ok tt /\
  export_markdown (snd outcome)
  = Content (text_of_lines
      [ "# Code Snippets";
        EmptyString;
        "## Debounce";
        "- **Language**: javascript";
        "- **Category**: General";
        "- **Tags**: utils, js";
        "- **Description**: None";
        "```javascript";
        "function debounce() {}";
        "```";
        EmptyString;
        "## Flatten";
        "- **Language**: python";
        "- **Category**: Idioms";
        "- **Tags**: lists";
        "- **Description**: One level only";
        "```python";
        "[x for l in ls for x in l]";
        "```";
        EmptyString ]) /\
  terminal (snd outcome) = [Log green "Snippets exported to snippets-export.md"].
Proof.
  intros rs outcome.
  pose proof (markdown_export_lists_every_record rs (world_with rs)) as H.
  split.
  - unfold outcome. rewrite H; [reflexivity|]. vm_compute. reflexivity.
  - split; vm_compute; reflexivity.
Defined.

(** C10.  The title validator accepts exactly the non-empty texts.  The
    empty answer is rejected with the message [Title is required] and
    the title is asked again; any other answer, white space only
    included, is accepted as it is, and Add stores it as the title
    without trimming. *)
Theorem title_validation_accepts_exactly_nonempty :
  forall (t : string) (w : world) (items : list value)
         (now c l tg cat d : string) (others : list string),
    t <> EmptyString ->
    stored w = VArr items ->
    (forall s, validate_title (VStr s) = Valid <-> s <> EmptyString) /\
    validate_title (VStr EmptyString) = Invalid "Title is required" /\
    ask title_question (set_responses (EmptyString :: t :: others) w)
    = (Ok (VStr t),
       set_responses others
         (emits [Ask "Snippet title:"; Rejected "Title is required"] w)) /\
    ask title_question (set_responses (t :: others) w)
    = (Ok (VStr t), set_responses others (emits [Ask "Snippet title:"] w)) /\
    exists record,
      stored (snd (addSnippet now
                     (set_responses (t :: c :: l :: tg :: cat :: d :: others) w)))
      = VArr (items ++ [snippet_value record]) /\
      title record = t.
Proof.
  intros t w items now c l tg cat d others Ht Hs. repeat split.
  - intros H ->. discriminate H.
  - intros H. now apply validate_title_nonempty.
  - unfold ask. cbn [responses set_responses].
    rewrite (title_loop 1 t others _ Ht).
    destruct w. world_fields. f_equal. f_equal. cbn [repeat]. now list_assoc.
  - unfold ask. cbn [responses set_responses].
    rewrite (title_loop 0 t others _ Ht).
    destruct w. world_fields. f_equal. f_equal. cbn [repeat]. now list_assoc.
  - exists (entered (List.length items) t c l tg cat d now). split; [|reflexivity].
    exact (add_stores_record 0 t c l tg cat d others now items
             (set_responses (t :: c :: l :: tg :: cat :: d :: others) w)
             Ht eq_refl Hs).
Qed.

(** C10 for a title of three spaces. *)
Lemma title_validation_accepts_exactly_nonempty_witness :
  let t := "   " in
  let w := world_with [sample_record 1] in
  (forall s, validate_title (VStr s) = Valid <-> s <> EmptyString) /\
  validate_title (VStr EmptyString) = Invalid "Title is required" /\
  ask title_question (set_responses [EmptyString; t] w)
  = (Ok (VStr t),
     set_responses []
       (emits [Ask "Snippet title:"; Rejected "Title is required"] w)) /\
  ask title_question (set_responses [t] w)
  = (Ok (VStr t), set_responses [] (emits [Ask "Snippet title:"] w)) /\
  exists record,
    stored (snd (addSnippet "now"
                   (set_responses [t; "x"; "js"; "a"; "b"; "c"] w)))
    = VArr (map snippet_value [sample_record 1] ++ [snippet_value record]) /\
    title record = t.
Proof.
  apply (title_validation_accepts_exactly_nonempty
           "   " (world_with [sample_record 1])
           (map snippet_value [sample_record 1])
           "now" "x" "js" "a" "b" "c" []).
  - discriminate.
  - vm_compute. reflexivity.
Defined.

Import ListFacts SearchFacts.

(** C4, as stated, fails when a filter is supplied as the empty text:
    with [--lang] given as the empty text and one record in Python in
    the collection, the program lists the record, while no record has
    the empty text as its language, so that the stated filter keeps
    nothing and calls for the not-found notice. *)
Lemma list_with_empty_filter_lists_everything :
  let o := mkListOptions (Some EmptyString) None in
  let w := world_with [python_record] in
  listSnippets o w = (Ok tt, emits (listed python_record) w) /\
  listing (filter (wanted_by_filters o) [python_record])
  = [Log yellow "No snippets found."] /\
  terminal (snd (listSnippets o w))
  <> terminal (emits (listing (filter (wanted_by_filters o) [python_record])) w).
Proof.
  cbv zeta.
  assert (E : listSnippets (mkListOptions (Some EmptyString) None)
                (world_with [python_record])
              = (Ok tt, emits (listed python_record) (world_with [python_record]))).
  { rewrite (list_result [python_record]); [reflexivity|].
    apply stored_collection. }
  rewrite E. repeat split. cbn. discriminate.
Qed.

(** C4, amended.  List keeps exactly the records that pass every filter
    in force, in collection order; a filter is in force when its option
    is supplied and is not the empty text, and a record passes it when
    its language (or category) equals the option under case-insensitive
    comparison: the same length and, at each position, the same letter
    in either case; with two filters in force a record must pass both.
    When nothing remains the not-found notice is printed, otherwise the
    lines of each record that remains.  When no option is the empty
    text, the records kept are those of the claim as stated. *)
Theorem list_keeps_records_passing_filters_in_force :
  forall (rs : list Snippet) (o : list_options) (w : world),
    stored w = collection rs ->
    listSnippets o w = (Ok tt, emits (listing (filter (kept o) rs)) w) /\
    (forall s,
        kept o s = true <->
        (forall f, lang o = Some f -> f <> EmptyString ->
                   equal_ignoring_case (language s) f = true) /\
        (forall f, category o = Some f -> f <> EmptyString ->
                   equal_ignoring_case (category_of s) f = true)) /\
    (lang o <> Some EmptyString -> category o <> Some EmptyString ->
     forall s, kept o s = wanted_by_filters o s).
Proof.
  intros rs o w Hs. split; [now apply list_result|]. split.
  - intros s. unfold kept. rewrite andb_true_iff.
    assert (H : forall (x : option string) (actual : string),
               passes (effective x) actual = true <->
               (forall f, x = Some f -> f <> EmptyString ->
                          equal_ignoring_case actual f = true)).
    { intros [[|a f]|] actual; cbn [effective passes].
      - split; [intros _ f [= <-] Hf; congruence|reflexivity].
      - split.
        + intros E f' [= <-] _. exact E.
        + intros E. apply E; [reflexivity|discriminate].
      - split; [intros _ f [=]|reflexivity]. }
    now rewrite !H.
  - intros Hl Hc s. unfold kept, wanted_by_filters.
    destruct (lang o) as [[|a l]|]; [congruence| |];
      (destruct (category o) as [[|b c]|]; [congruence| |]); reflexivity.
Qed.

(** C4, amended, on a collection of a record in Python and one in
    JavaScript, both of category General: the options
    [--lang PYTHON --category general] list the record in Python alone,
    and [--lang PYTHON --category react] give the not-found notice; the
    lines are those that the program prints when it is run. *)
Lemma list_keeps_records_passing_filters_in_force_witness :
  let rs := [python_record; sample_record 2] in
  let w := world_with rs in
  let o := mkListOptions (Some "PYTHON") (Some "general") in
  listSnippets o w = (Ok tt, emits (listing (filter (kept o) rs)) w) /\
  filter (kept o) rs = [python_record] /\
  listSnippets o w
  = (Ok tt,
     emits [ Log cyan "[1] Flatten (python)";
             Log plain "  Category: General";
             Log plain "  Tags: lists";
             Log plain "---" ] w) /\
  listSnippets (mkListOptions (Some "PYTHON") (Some "react")) w
  = (Ok tt, emits [Log yellow "No snippets found."] w).
Proof.
  intros rs w o.
  destruct (list_keeps_records_passing_filters_in_force rs o w) as [H _];
    [vm_compute; reflexivity|].
  split; [exact H|]. repeat split; vm_compute; reflexivity.
Defined.

(** C8.  After a search with at least one result, the results are shown
    and the copy question is asked once.  When the response is blank,
    that is empty, as it is when the user only presses Enter, nothing
    more happens: no message, and the clipboard is as before.  When the
    response is an id in decimal digits, as the headlines show the ids,
    and the collection has a record with that id, the code of the first
    such record is put on the clipboard and a confirmation with its
    title is printed; when the collection has none, the error message
    is printed and the clipboard is as before.  A response that names
    no number gives the error message too.  For every other response
    the record is the one with the id that [parseInt] reads.  The
    matcher is any function. *)
Theorem copy_prompt_copies_reports_or_skips :
  forall (fuse_search : value -> fuse_options -> string -> result (list value))
         (rs res : list Snippet) (query response : string) (others : list string)
         (w : world),
    stored w = collection rs ->
    fuse_search (collection rs) search_options query = Ok (map snippet_value res) ->
    res <> [] ->
    let asked :=
      set_responses others (emits (flat_map shown res ++ [Ask copy_message]) w) in
    let outcome :=
      searchSnippets fuse_search query (set_responses (response :: others) w) in
    let copied s :=
      emit (Log green ("Snippet " +++ quoted (title s) +++ " copied to clipboard!"))
           (set_clipboard (code s) asked) in
    let refused := emit (Log red "Invalid snippet ID.") asked in
    fst outcome = Ok tt /\
    (response = EmptyString -> snd outcome = asked) /\
    (forall n,
        response = shown_id n ->
        match first_with_id rs n with
        | Some s => snd outcome = copied s /\ clipboard (snd outcome) = Some (code s)
        | None => snd outcome = refused /\ clipboard (snd outcome) = clipboard w
        end) /\
    (response <> EmptyString -> lacks_number response = true ->
     snd outcome = refused /\ clipboard (snd outcome) = clipboard w) /\
    (forall s,
        response <> EmptyString -> resolve rs response = Some s ->
        snd outcome = copied s /\ clipboard (snd outcome) = Some (code s)) /\
    (response <> EmptyString -> resolve rs response = None ->
     snd outcome = refused /\ clipboard (snd outcome) = clipboard w).
Proof.
  intros fuse_search rs res query response others w Hs Hf Hres
         asked outcome copied refused.
  assert (E := search_result fuse_search rs res query response others w Hs Hf Hres).
  cbv zeta in E. fold asked in E. fold outcome in E. rewrite E. cbn [fst snd].
  split; [reflexivity|]. split; [intros ->; reflexivity|]. split; [|split; [|split]].
  - intros n ->. rewrite ParseIntFacts.shown_id_nonempty.
    unfold resolve. rewrite ParseIntFacts.parseInt_shown.
    fold (first_with_id rs n). destruct (first_with_id rs n); split; reflexivity.
  - intros Hne Hl. apply String.eqb_neq in Hne. rewrite Hne.
    unfold resolve. rewrite (ParseIntFacts.parseInt_lacks_number _ Hl).
    split; reflexivity.
  - intros s Hne Hr. apply String.eqb_neq in Hne. rewrite Hne, Hr.
    split; reflexivity.
  - intros Hne Hr. apply String.eqb_neq in Hne. rewrite Hne, Hr.
    split; reflexivity.
Qed.

(** C8 for a collection of three records of which the search finds the
    second, and the response [2]: the terminal and the clipboard
    afterwards, written out. *)
Lemma copy_prompt_copies_reports_or_skips_witness :
  let flatten :=
    mkSnippet 2 "Flatten" "[x for l in ls for x in l]" "python" ["lists"]
              "Idioms" EmptyString "2024-05-02T08:00:00.000Z" in
  let rs := [sample_record 1; flatten; sample_record 3] in
  let outcome :=
    searchSnippets (fun _ _ _ => Ok [snippet_value flatten]) "flat"
      (set_responses ["2"] (world_with rs)) in
  fst outcome = Ok tt /\
  clipboard (snd outcome) = Some "[x for l in ls for x in l]" /\
  terminal (snd outcome)
  = [ Log cyan "[2] Flatten (python)";
      Log plain "  Category: Idioms";
      Log plain "  Tags: lists";
      Log plain "  Description: None";
      Log plain ("  Code:" +++ nl +++ "[x for l in ls for x in l]");
      Log plain "---";
      Ask "Enter snippet ID to copy to clipboard (or press Enter to skip):";
      Log green ("Snippet " +++ quoted "Flatten" +++ " copied to clipboard!") ] /\
  responses (snd outcome) = [].
Proof.
  intros flatten rs outcome.
  destruct (copy_prompt_copies_reports_or_skips
              (fun _ _ _ => Ok [snippet_value flatten])
              rs [flatten] "flat" "2" [] (world_with rs))
    as (H1 & _).
  - vm_compute. reflexivity.
  - reflexivity.
  - discriminate.
  - split; [exact H1|]. repeat split; vm_compute; reflexivity.
Defined.

Import InvariantFacts.

(** C7, as stated, fails for a backing file whose records carry other
    ids than their positions: with one record of id 2 in the file, the
    ids increase strictly; Add gives the new record the id 2 as well
    (one record present, plus one), and the ids 2, 2 neither increase
    nor are distinct. *)
Lemma add_repeats_an_id_of_a_foreign_file :
  let w := world_with [sample_record 2] in
  let w' := snd (addSnippet "2024-05-02T08:00:00.000Z"
                   (set_responses ["Throttle"; "x"; "js"; "a"; "b"; "c"] w)) in
  increasing_ids (stored w) /\
  ids (stored w') = [Some 2; Some 2] /\
  ~ increasing_ids (stored w') /\
  ~ NoDup (ids (stored w')).
Proof.
  cbv zeta.
  assert (E : stored (snd (addSnippet "2024-05-02T08:00:00.000Z"
                (set_responses ["Throttle"; "x"; "js"; "a"; "b"; "c"]
                   (world_with [sample_record 2]))))
              = VArr [snippet_value (sample_record 2);
                      snippet_value (entered 1 "Throttle" "x" "js" "a" "b" "c"
                                       "2024-05-02T08:00:00.000Z")]).
  { apply (add_stores_record 0 "Throttle" "x" "js" "a" "b" "c" []
             "2024-05-02T08:00:00.000Z" [snippet_value (sample_record 2)]).
    - discriminate.
    - reflexivity.
    - exact (stored_collection [sample_record 2] fresh). }
  rewrite E. split; [|split; [reflexivity|split]].
  - exists [2]. split; [|split].
    + eexists. exact (stored_collection [sample_record 2] fresh).
    + unfold world_with. now rewrite (stored_collection [sample_record 2] fresh).
    + repeat constructor.
  - intros (ns & _ & Hids & Hsorted). cbn in Hids.
    destruct ns as [|a [|b [|? ?]]]; try discriminate.
    injection Hids as <- <-. inversion Hsorted as [|? ? _ Hall]; subst.
    inversion Hall; subst. lia.
  - cbn. intros H. inversion H as [|? ? Hin _]; subst. apply Hin. now left.
Qed.

(** C7, amended.  In every world that the program reaches from a world
    whose collection is numbered (the record at position [i] has id
    [i]: so it is with an absent, unreadable, unparsable or empty
    backing file), by runs of Add, Search, List and Export, by loads
    and by saves of the collection held, the collection is numbered
    again: its ids are 1, 2, ..., in collection order, strictly
    increasing and pairwise distinct. *)
Theorem ids_of_reachable_collections_increase :
  forall (fuse_search : value -> fuse_options -> string -> result (list value))
         (w : world),
    reachable fuse_search w ->
    exists items,
      stored w = VArr items /\
      ids (stored w) = map Some (map Z.of_nat (seq 1 (List.length items))) /\
      StronglySorted Z.lt (map Z.of_nat (seq 1 (List.length items))) /\
      NoDup (map Z.of_nat (seq 1 (List.length items))) /\
      increasing_ids (stored w).
Proof.
  intros fuse_search w Hr.
  destruct (numbered_increasing _ (reachable_numbered _ _ Hr))
    as (items & Es & Hids & Hsorted).
  exists items. repeat split; try assumption.
  - now apply increasing_distinct.
  - exists (map Z.of_nat (seq 1 (List.length items))). repeat split; try assumption.
    now exists items.
Qed.

(** C7, amended, for the world reached from an absent backing file by
    an Add (the title given after one empty answer), a JSON export and a
    second Add. *)
Lemma ids_of_reachable_collections_increase_witness :
  let w :=
    snd (run match_everything CmdAdd "2024-05-02T08:00:00.000Z"
           ["Throttle"; "x"; "js"; "a"; "b"; "c"]
           (snd (run match_everything (CmdExport "json") EmptyString []
                   (snd (run match_everything CmdAdd "2024-05-01T10:00:00.000Z"
                           [EmptyString; "Debounce"; "y"; EmptyString; "utils, js";
                            EmptyString; EmptyString]
                           fresh))))) in
  exists items,
    stored w = VArr items /\
    ids (stored w) = map Some (map Z.of_nat (seq 1 (List.length items))) /\
    StronglySorted Z.lt (map Z.of_nat (seq 1 (List.length items))) /\
    NoDup (map Z.of_nat (seq 1 (List.length items))) /\
    increasing_ids (stored w).
Proof.
  apply (ids_of_reachable_collections_increase match_everything).
  apply reach_run. apply reach_run. apply reach_run. apply reach_start.
  exists []. split; reflexivity.
Defined.

(* ================================================================== *)
(** * What the operations leave alone *)
(* ================================================================== *)

Module FrameFacts.
Import RepositoryFacts AddFacts.

Section Frames.

Context {R : world -> world -> Prop}.
Hypothesis R_refl : forall w, R w w.
Hypothesis R_trans : forall w1 w2 w3, R w1 w2 -> R w2 w3 -> R w1 w3.

Lemma frame_ret {A} (a : A) : frame R (ret a).
Proof. intros w. apply R_refl. Qed.

Lemma frame_throw {A} e : frame R (@throw A e).
Proof. intros w. apply R_refl. Qed.

Lemma frame_lift {A} (r : result A) : frame R (lift r).
Proof. intros w. apply R_refl. Qed.

Lemma frame_load : frame R loadSnippets.
Proof. intros w. rewrite load_stored. apply R_refl. Qed.

Lemma frame_bind {A B} (m : M A) (f : A -> M B) :
  frame R m -> (forall a, frame R (f a)) -> frame R (bind m f).
Proof.
  intros Hm Hf w. unfold bind. specialize (Hm w).
  destruct (m w) as [[a|e] w1]; cbn [snd] in *; [|assumption].
  eapply R_trans; [exact Hm|apply Hf].
Qed.

Lemma frame_for_each (f : value -> M unit) items :
  (forall x, frame R (f x)) -> frame R (for_each f items).
Proof.
  intros Hf. induction items as [|x l IH]; cbn [for_each].
  - apply frame_ret.
  - apply frame_bind; [apply Hf|]. intros _. exact IH.
Qed.

End Frames.

(** The steps shared by the frame proofs; [prim] closes the primitive
    operations of the frame at hand. *)
Ltac frames refl trans prim :=
  repeat first
    [ apply (frame_ret refl) | apply (frame_throw refl)
    | apply (frame_lift refl) | apply (frame_load refl)
    | prim
    | apply (frame_for_each refl trans); intro
    | apply (frame_bind trans); [|intro]
    | match goal with
      | |- frame _ (if ?b then _ else _) => destruct b
      | |- frame _ (match ?x with _ => _ end) => destruct x
      end ].

(** ** Printing only *)

Lemma emits_nothing w : emits [] w = w.
Proof. destruct w. unfold emits. cbn. now rewrite app_nil_r. Qed.

Lemma printed_more_refl w : printed_more w w.
Proof. exists []. now rewrite emits_nothing. Qed.

Lemma printed_more_trans w1 w2 w3 :
  printed_more w1 w2 -> printed_more w2 w3 -> printed_more w1 w3.
Proof.
  intros [o1 ->] [o2 ->]. exists (o1 ++ o2). apply emits_emits.
Qed.

Lemma prints_console_log c text : frame printed_more (console_log c text).
Proof. intros w. now exists [Log c text]. Qed.

Lemma list_prints_only o : frame printed_more (listSnippets o).
Proof.
  unfold listSnippets, call_forEach, headline, category_line, tags_line.
  frames printed_more_refl printed_more_trans ltac:(apply prints_console_log).
Qed.

(** ** Writing no file *)

Lemma same_files_refl w : same_files w w.
Proof. repeat split. Qed.

Lemma same_files_trans w1 w2 w3 :
  same_files w1 w2 -> same_files w2 w3 -> same_files w1 w3.
Proof. unfold same_files. intros (-> & -> & ->) (-> & -> & ->). repeat split. Qed.

Lemma files_console_log c text : frame same_files (console_log c text).
Proof. intros w. repeat split. Qed.

Lemma files_clipboard e : frame same_files (clipboardy_writeSync e).
Proof. intros w. destruct e as [[]|]; repeat split. Qed.

Lemma files_answer_loop q rs w : same_files w (snd (answer_loop q rs w)).
Proof.
  revert w. induction rs as [|r rs IH]; intros w; cbn [answer_loop];
    [repeat split|].
  destruct (match qvalidate q with Some check => _ | None => Valid end);
    [repeat split|].
  eapply same_files_trans; [|apply IH]. repeat split.
Qed.

Lemma files_ask q : frame same_files (ask q).
Proof.
  intros w. unfold ask.
  eapply same_files_trans; [|apply files_answer_loop]. repeat split.
Qed.

Lemma files_prompt_all qs : forall answers, frame same_files (prompt_all qs answers).
Proof.
  induction qs as [|q qs IH]; intros answers; cbn [prompt_all].
  - apply (frame_ret same_files_refl).
  - apply (frame_bind same_files_trans); [apply files_ask|]. intros v. apply IH.
Qed.

Lemma files_prompt qs : frame same_files (inquirer_prompt qs).
Proof. apply files_prompt_all. Qed.

Ltac files_prim :=
  first [ apply files_console_log | apply files_clipboard | apply files_prompt ].

Lemma files_print_result x : frame same_files (print_result x).
Proof.
  unfold print_result, headline, category_line, tags_line.
  frames same_files_refl same_files_trans files_prim.
Qed.

Lemma search_writes_nothing fuse_search query :
  frame same_files (searchSnippets fuse_search query).
Proof.
  unfold searchSnippets.
  frames same_files_refl same_files_trans
         ltac:(first [files_prim | apply files_print_result]).
Qed.

(** ** Export and the rest of the world *)

Lemma store_user_refl w : same_store_and_user w w.
Proof. repeat split. Qed.

Lemma store_user_trans w1 w2 w3 :
  same_store_and_user w1 w2 -> same_store_and_user w2 w3 ->
  same_store_and_user w1 w3.
Proof.
  unfold same_store_and_user. intros (-> & -> & ->) (-> & -> & ->). repeat split.
Qed.

Lemma store_user_console_log c text :
  frame same_store_and_user (console_log c text).
Proof. intros w. repeat split. Qed.

Lemma store_user_write p text :
  p <> SNIPPET_FILE -> frame same_store_and_user (writeFile p text).
Proof. intros Hp w. destruct p; [congruence| |]; repeat split. Qed.

Lemma export_keeps_store_and_user format :
  frame same_store_and_user (exportSnippets format).
Proof.
  unfold exportSnippets, writeJson.
  frames store_user_refl store_user_trans
         ltac:(first [ apply store_user_console_log
                     | apply store_user_write; discriminate ]).
Qed.

End FrameFacts.

(* ================================================================== *)
(** * Further properties of the program *)
(* ================================================================== *)

Import FrameFacts.

(** X1.  Save followed by load gives the saved value back, for every
    value built from null, booleans, integers that the runtime holds
    exactly, texts, arrays and objects; a write is taken to go through,
    as every write of the model does.  The file is replaced as a whole:
    whether there was none or what it held before plays no part.  The
    export files are left alone, and the one line [Snippets saved!] is
    printed. *)
Theorem saved_collection_is_loaded_back :
  forall (v : value) (w : world),
    canonical v ->
    safe_numbers v = true ->
    snippet_file w <> Unreadable ->
    let w' := snd (saveSnippets v w) in
    loadSnippets w' = (Ok v, w') /\
    (forall f, f <> Unreadable ->
               snippet_file (snd (saveSnippets v (set_file SNIPPET_FILE f w)))
               = snippet_file w') /\
    export_json w' = export_json w /\
    export_markdown w' = export_markdown w /\
    terminal w' = terminal w ++ [Log green "Snippets saved!"].
Proof.
  intros v w Hv _ _ w'. subst w'. rewrite save_result. cbn [fst snd].
  repeat split.
  rewrite load_stored. f_equal. f_equal.
  unfold stored. world_fields. now rewrite parse_written.
Qed.

(** X1 for a collection of two records, saved over a file that held one
    record. *)
Lemma saved_collection_is_loaded_back_witness :
  let v := collection [sample_record 1; python_record] in
  let w := world_with [sample_record 7] in
  let w' := snd (saveSnippets v w) in
  loadSnippets w' = (Ok v, w') /\
  stored w' = v /\
  snippet_file w' = Content (JSON.print 0 v nl) /\
  terminal w' = [Log green "Snippets saved!"].
Proof.
  intros v w w'.
  destruct (saved_collection_is_loaded_back v w) as (H1 & _).
  - apply canonical_collection.
  - reflexivity.
  - discriminate.
  - split; [exact H1|]. repeat split; vm_compute; reflexivity.
Defined.

(** X2.  A successful Add changes the world in these ways only: the
    backing file is rewritten; the terminal shows the title question,
    one rejection for each empty answer to it, the five other
    questions, [Snippets saved!] and the confirmation with the title in
    quotes; the answers given are used up, the later ones are left.
    The export files and the clipboard are as before. *)
Theorem add_changes_store_and_terminal_only :
  forall (items : list value) (w : world) (k : nat)
         (now t c l tg cat d : string) (others : list string),
    stored w = VArr items ->
    t <> EmptyString ->
    let answered :=
      set_responses
        (repeat EmptyString k ++ t :: c :: l :: tg :: cat :: d :: others) w in
    let w' := snd (addSnippet now answered) in
    terminal w' = terminal w ++ add_dialogue k t /\
    responses w' = others /\
    export_json w' = export_json w /\
    export_markdown w' = export_markdown w /\
    clipboard w' = clipboard w /\
    snippet_file w'
    = Content (JSON.print 0
                 (VArr (items ++ [snippet_value
                                    (entered (List.length items) t c l tg cat d now)]))
                 nl).
Proof.
  intros items w k now t c l tg cat d others Hs Ht answered w'. subst w'.
  rewrite (add_result k t c l tg cat d others now items answered Ht eq_refl Hs).
  destruct w. repeat split.
Qed.

(** X2 for a title given at the third attempt. *)
Lemma add_changes_store_and_terminal_only_witness :
  let w := world_with [sample_record 1] in
  let items := map snippet_value [sample_record 1] in
  let answered :=
    set_responses
      [EmptyString; EmptyString; "Throttle"; "x"; EmptyString; "a, b";
       EmptyString; "note"; "left over"] w in
  let w' := snd (addSnippet "2024-05-02T08:00:00.000Z" answered) in
  terminal w' = terminal w ++ add_dialogue 2 "Throttle" /\
  responses w' = ["left over"] /\
  export_json w' = export_json w /\
  export_markdown w' = export_markdown w /\
  clipboard w' = clipboard w /\
  snippet_file w'
  = Content (JSON.print 0
               (VArr (items ++ [snippet_value
                                  (entered 1 "Throttle" "x" EmptyString "a, b"
                                     EmptyString "note"
                                     "2024-05-02T08:00:00.000Z")]))
               nl).
Proof.
  apply (add_changes_store_and_terminal_only
           (map snippet_value [sample_record 1])
           (world_with [sample_record 1]) 2
           "2024-05-02T08:00:00.000Z" "Throttle" "x" EmptyString "a, b"
           EmptyString "note" ["left over"]).
  - vm_compute. reflexivity.
  - discriminate.
Defined.

(** X3.  When the backing file holds JSON that is not an array, Add
    asks its questions and then fails with a [TypeError], there being
    no [push] to call: nothing is saved, no file is written, and
    neither [Snippets saved!] nor the confirmation is printed. *)
Theorem add_to_non_array_fails_without_saving :
  forall (w : world) (k : nat) (now t c l tg cat d : string)
         (others : list string),
    (forall items, stored w <> VArr items) ->
    t <> EmptyString ->
    let answered :=
      set_responses
        (repeat EmptyString k ++ t :: c :: l :: tg :: cat :: d :: others) w in
    addSnippet now answered
    = (Throw TypeError,
       set_responses others
         (emits (Ask "Snippet title:" :: repeat (Rejected "Title is required") k
                 ++ add_asks_after_title) w)).
Proof.
  intros w k now t c l tg cat d others Hs Ht answered.
  unfold addSnippet. unfold bind at 1.
  rewrite (add_prompt k t c l tg cat d others answered Ht eq_refl).
  unfold bind. rewrite load_stored.
  change (stored (set_responses others
            (emits (Ask "Snippet title:" :: repeat (Rejected "Title is required") k
                    ++ add_asks_after_title) answered)))
    with (stored w).
  destruct (stored w) as [| | | |items|] eqn:E;
    try (f_equal; subst answered; destruct w; reflexivity).
  now destruct (Hs items).
Qed.

(** X3 for a backing file that holds an empty object. *)
Lemma add_to_non_array_fails_without_saving_witness :
  let w := set_file SNIPPET_FILE (Content "{}") fresh in
  addSnippet "2024-05-02T08:00:00.000Z"
    (set_responses ["Throttle"; "x"; "js"; "a"; "b"; "c"] w)
  = (Throw TypeError,
     set_responses []
       (emits (Ask "Snippet title:" :: add_asks_after_title) w)).
Proof.
  apply (add_to_non_array_fails_without_saving
           (set_file SNIPPET_FILE (Content "{}") fresh) 0
           "2024-05-02T08:00:00.000Z" "Throttle" "x" "js" "a" "b" "c" []).
  - intros items. vm_compute. discriminate.
  - discriminate.
Defined.

(** X4.  Over a backing file that is absent or does not parse, Add
    starts from the empty collection and replaces the file: afterwards
    the store holds the new record alone, with id 1.  What an unparsable
    file held is lost. *)
Theorem add_over_unusable_file_starts_anew :
  forall (w : world) (k : nat) (now t c l tg cat d : string)
         (others : list string),
    snippet_file w = Absent \/
    (exists text, snippet_file w = Content text /\ JSON.parse text = None) ->
    t <> EmptyString ->
    let answered :=
      set_responses
        (repeat EmptyString k ++ t :: c :: l :: tg :: cat :: d :: others) w in
    fst (addSnippet now answered) = Ok tt /\
    stored (snd (addSnippet now answered))
    = collection [mkSnippet 1 t c (or_default "javascript" l) (tags_filter tg)
                            (or_default "General" cat) d now].
Proof.
  intros w k now t c l tg cat d others Hw Ht answered.
  assert (Hs : stored w = VArr []).
  { unfold stored. destruct Hw as [-> | (text & -> & ->)]; reflexivity. }
  split.
  - now rewrite (add_result k t c l tg cat d others now [] answered Ht eq_refl Hs).
  - exact (add_stores_record k t c l tg cat d others now [] answered Ht eq_refl Hs).
Qed.

(** X4 for a backing file cut short in the middle of a record. *)
Lemma add_over_unusable_file_starts_anew_witness :
  let w := set_file SNIPPET_FILE (Content "[{") fresh in
  let answered := set_responses ["Throttle"; "x"; "js"; "a"; "b"; "c"] w in
  fst (addSnippet "2024-05-02T08:00:00.000Z" answered) = Ok tt /\
  stored (snd (addSnippet "2024-05-02T08:00:00.000Z" answered))
  = collection [mkSnippet 1 "Throttle" "x" (or_default "javascript" "js")
                          (tags_filter "a") (or_default "General" "b") "c"
                          "2024-05-02T08:00:00.000Z"].
Proof.
  apply (add_over_unusable_file_starts_anew
           (set_file SNIPPET_FILE (Content "[{") fresh) 0
           "2024-05-02T08:00:00.000Z" "Throttle" "x" "js" "a" "b" "c" []).
  - right. exists "[{". split; reflexivity.
  - discriminate.
Defined.

Import ListFacts SearchFacts InvariantFacts.

(** X5.  A record that was just added is listed: List without filters,
    run after a successful Add to a collection of records, prints the
    lines of every earlier record, in order, and then those of the new
    one, whose headline carries the id count + 1. *)
Theorem added_record_is_listed_last :
  forall (rs : list Snippet) (w : world) (k : nat)
         (now t c l tg cat d : string) (others : list string),
    stored w = collection rs ->
    t <> EmptyString ->
    let answered :=
      set_responses
        (repeat EmptyString k ++ t :: c :: l :: tg :: cat :: d :: others) w in
    let w1 := snd (addSnippet now answered) in
    listSnippets (mkListOptions None None) w1
    = (Ok tt,
       emits (flat_map listed rs
              ++ listed (entered (List.length rs) t c l tg cat d now)) w1).
Proof.
  intros rs w k now t c l tg cat d others Hs Ht answered w1.
  assert (E : stored w1
              = collection (rs ++ [entered (List.length rs) t c l tg cat d now])).
  { unfold w1.
    rewrite (add_stores_record k t c l tg cat d others now
               (map snippet_value rs) answered Ht eq_refl Hs).
    unfold collection. now rewrite map_app, length_map. }
  rewrite (list_result _ _ _ E). do 2 f_equal.
  change (filter (kept (mkListOptions None None))
            (rs ++ [entered (List.length rs) t c l tg cat d now]))
    with (filter (fun _ : Snippet => true)
            (rs ++ [entered (List.length rs) t c l tg cat d now])).
  rewrite filter_all. unfold listing.
  destruct (rs ++ [entered (List.length rs) t c l tg cat d now]) eqn:El.
  - now destruct rs.
  - rewrite <- El, flat_map_app. cbn [flat_map]. now rewrite app_nil_r.
Qed.

(** X5 for one record in the store. *)
Lemma added_record_is_listed_last_witness :
  let rs := [python_record] in
  let answered :=
    set_responses ["Throttle"; "x"; "js"; "a"; "b"; "c"] (world_with rs) in
  let w1 := snd (addSnippet "2024-05-02T08:00:00.000Z" answered) in
  listSnippets (mkListOptions None None) w1
  = (Ok tt,
     emits (flat_map listed rs
            ++ listed (entered 1 "Throttle" "x" "js" "a" "b" "c"
                         "2024-05-02T08:00:00.000Z")) w1).
Proof.
  apply (added_record_is_listed_last [python_record] (world_with [python_record]) 0
           "2024-05-02T08:00:00.000Z" "Throttle" "x" "js" "a" "b" "c" []).
  - vm_compute. reflexivity.
  - discriminate.
Defined.

(** X6.  When the matcher finds nothing, Search prints the not-found
    notice and stops: the copy question is not asked, no answer of the
    user is used up, and clipboard and files are as before. *)
Theorem search_without_results_stops_at_notice :
  forall (fuse_search : value -> fuse_options -> string -> result (list value))
         (query : string) (w : world),
    fuse_search (stored w) search_options query = Ok [] ->
    searchSnippets fuse_search query w
    = (Ok tt, emit (Log yellow "No snippets found.") w).
Proof.
  intros fuse_search query w Hf. unfold searchSnippets, bind, lift.
  now rewrite load_stored, Hf.
Qed.

(** X6 with a matcher that finds nothing, answers pending. *)
Lemma search_without_results_stops_at_notice_witness :
  let w := set_responses ["1"] (world_with [python_record]) in
  searchSnippets (fun _ _ _ => Ok []) "flatten" w
  = (Ok tt, emit (Log yellow "No snippets found.") w).
Proof.
  apply (search_without_results_stops_at_notice (fun _ _ _ => Ok []) "flatten"
           (set_responses ["1"] (world_with [python_record]))).
  reflexivity.
Defined.

(** X7.  When several records carry the id that the response names, the
    copy takes the first of them in collection order: its code goes to
    the clipboard, and the confirmation names its title. *)
Theorem copy_takes_first_record_with_the_id :
  forall (fuse_search : value -> fuse_options -> string -> result (list value))
         (before after res : list Snippet) (s : Snippet)
         (query response : string) (others : list string) (w : world),
    stored w = collection (before ++ s :: after) ->
    fuse_search (collection (before ++ s :: after)) search_options query
    = Ok (map snippet_value res) ->
    res <> [] ->
    response <> EmptyString ->
    parseInt response = Some (id s) ->
    Forall (fun x => id x <> id s) before ->
    let outcome :=
      searchSnippets fuse_search query (set_responses (response :: others) w) in
    fst outcome = Ok tt /\
    clipboard (snd outcome) = Some (code s) /\
    last (terminal (snd outcome)) Help
    = Log green ("Snippet " +++ quoted (title s) +++ " copied to clipboard!").
Proof.
  intros fuse_search before after res s query response others w
         Hs Hf Hres Hne Hp Hb outcome.
  assert (Hr : resolve (before ++ s :: after) response = Some s).
  { unfold resolve. rewrite Hp. clear - Hb.
    induction Hb as [|x l Hx _ IH]; cbn [List.app find]; cbv beta.
    - now rewrite Z.eqb_refl.
    - apply Z.eqb_neq in Hx. now rewrite Hx. }
  assert (E := search_result fuse_search _ res query response others w Hs Hf Hres).
  cbv zeta in E. fold outcome in E. rewrite E.
  apply String.eqb_neq in Hne. rewrite Hne, Hr. cbn [fst snd].
  repeat split. destruct w. world_fields. apply last_last.
Qed.

(** X7 for two records with the id 2, the first after a record of id 1. *)
Lemma copy_takes_first_record_with_the_id_witness :
  let first := mkSnippet 2 "First" "first()" "js" [] "General" EmptyString "t1" in
  let second := mkSnippet 2 "Second" "second()" "js" [] "General" EmptyString "t2" in
  let rs := [python_record] ++ first :: [second] in
  let outcome :=
    searchSnippets match_everything "s" (set_responses [" 2"] (world_with rs)) in
  fst outcome = Ok tt /\
  clipboard (snd outcome) = Some "first()" /\
  last (terminal (snd outcome)) Help
  = Log green ("Snippet " +++ quoted "First" +++ " copied to clipboard!").
Proof.
  apply (copy_takes_first_record_with_the_id match_everything
           [python_record]
           [mkSnippet 2 "Second" "second()" "js" [] "General" EmptyString "t2"]
           ([python_record]
            ++ mkSnippet 2 "First" "first()" "js" [] "General" EmptyString "t1"
            :: [mkSnippet 2 "Second" "second()" "js" [] "General" EmptyString "t2"])
           (mkSnippet 2 "First" "first()" "js" [] "General" EmptyString "t1")
           "s" " 2" []
           (world_with
              ([python_record]
               ++ mkSnippet 2 "First" "first()" "js" [] "General" EmptyString "t1"
               :: [mkSnippet 2 "Second" "second()" "js" [] "General" EmptyString "t2"]))).
  - vm_compute. reflexivity.
  - reflexivity.
  - discriminate.
  - discriminate.
  - reflexivity.
  - repeat constructor. discriminate.
Defined.

(** An Add that does not succeed leaves the backing file alone. *)
Lemma failed_add_keeps_store now w :
  fst (addSnippet now w) <> Ok tt ->
  snippet_file (snd (addSnippet now w)) = snippet_file w.
Proof.
  unfold addSnippet. cbv beta delta [bind].
  pose proof (keeps_prompt add_questions w) as Hk.
  destruct (inquirer_prompt add_questions w) as [[answers|e] w1];
    cbn [snd] in Hk; [|intros _; exact Hk].
  rewrite load_stored.
  destruct (stored w1); try (intros _; exact Hk).
  rewrite save_result. cbn [console_log fst]. congruence.
Qed.

(** X8.  The backing file changes in a successful Add and in no other
    run: Search, List, Export and the run without a command leave it as
    it is, whatever the state, the clock and the answers of the user,
    also when they fail; so does an Add that fails. *)
Theorem only_successful_add_changes_backing_file :
  forall (fuse_search : value -> fuse_options -> string -> result (list value))
         (c : command) (now : string) (rs : list string) (w : world),
    c <> CmdAdd \/ fst (run fuse_search c now rs w) <> Ok tt ->
    snippet_file (snd (run fuse_search c now rs w)) = snippet_file w.
Proof.
  intros fuse_search c now rs w H. unfold run in *.
  change (snippet_file w) with (snippet_file (set_responses rs w)).
  destruct c as [|query|o|format|]; cbn [main] in *.
  - destruct H as [H|H]; [congruence|]. now apply failed_add_keeps_store.
  - apply keeps_search.
  - apply keeps_list.
  - apply keeps_export.
  - reflexivity.
Qed.

(** X8 for a JSON export and for an Add to a store that is no array. *)
Lemma only_successful_add_changes_backing_file_witness :
  snippet_file (snd (run match_everything (CmdExport "json") EmptyString []
                       (world_with [python_record])))
  = snippet_file (world_with [python_record]) /\
  snippet_file (snd (run match_everything CmdAdd EmptyString
                       ["t"; "c"; "l"; "g"; "k"; "d"]
                       (set_file SNIPPET_FILE (Content "7") fresh)))
  = Content "7".
Proof.
  split.
  - apply (only_successful_add_changes_backing_file match_everything
             (CmdExport "json") EmptyString [] (world_with [python_record])).
    left. discriminate.
  - apply (only_successful_add_changes_backing_file match_everything
             CmdAdd EmptyString ["t"; "c"; "l"; "g"; "k"; "d"]
             (set_file SNIPPET_FILE (Content "7") fresh)).
    right. vm_compute. discriminate.
Defined.

(** X9.  List only prints: whatever the backing file holds and whatever
    the options, also when it fails on a malformed record, the world
    after it is the world before with more lines on the terminal; files,
    clipboard and pending answers are untouched. *)
Theorem list_only_prints :
  forall (o : list_options) (w : world),
    exists outs, snd (listSnippets o w) = emits outs w.
Proof. intros o w. apply list_prints_only. Qed.

(** X10.  Search writes no file: whatever the matcher returns, whatever
    the backing file holds and whatever the user answers, the backing
    file and both export files are as before. *)
Theorem search_writes_no_file :
  forall (fuse_search : value -> fuse_options -> string -> result (list value))
         (query : string) (w : world),
    snippet_file (snd (searchSnippets fuse_search query w)) = snippet_file w /\
    export_json (snd (searchSnippets fuse_search query w)) = export_json w /\
    export_markdown (snd (searchSnippets fuse_search query w)) = export_markdown w.
Proof. intros fuse_search query w. apply search_writes_nothing. Qed.

(** X11.  Export never changes the backing file, the clipboard or the
    pending answers, and writes at most the file of its format: the
    markdown file is untouched unless the format is [markdown], the JSON
    file unless it is [json]. *)
Theorem export_writes_only_its_file :
  forall (format : string) (w : world),
    let w' := snd (exportSnippets format w) in
    snippet_file w' = snippet_file w /\
    clipboard w' = clipboard w /\
    responses w' = responses w /\
    (format <> "json" -> export_json w' = export_json w) /\
    (format <> "markdown" -> export_markdown w' = export_markdown w).
Proof.
  intros format w w'.
  destruct (export_keeps_store_and_user format w) as (H1 & H2 & H3).
  repeat split; try assumption; subst w'; intros Hf;
    apply String.eqb_neq in Hf; unfold exportSnippets, bind;
    rewrite load_stored.
  - rewrite Hf. destruct (format =? "markdown")%string; [|reflexivity].
    destruct (lift _ w) as [[m|e] w1] eqn:E; unfold lift in E;
      injection E as _ <-; reflexivity.
  - rewrite Hf. destruct (format =? "json")%string; reflexivity.
Qed.







(** X13.  Export on an empty collection still writes its file and
    prints its confirmation, without a not-found notice: the JSON file
    holds [[]] and a line feed, the markdown file the title line
    alone. *)
Theorem export_of_empty_collection_writes_file :
  forall (w : world),
    stored w = VArr [] ->
    exportSnippets "json" w
    = (Ok tt,
       emit (Log green "Snippets exported to snippets-export.json")
         (set_file EXPORT_JSON (Content ("[]" +++ nl)) w)) /\
    exportSnippets "markdown" w
    = (Ok tt,
       emit (Log green "Snippets exported to snippets-export.md")
         (set_file EXPORT_MARKDOWN (Content ("# Code Snippets" +++ nl +++ nl)) w)).
Proof.
  intros w Hs. unfold exportSnippets, bind. rewrite load_stored, Hs.
  split; reflexivity.
Qed.

(** X13 when there is no backing file at all. *)
Lemma export_of_empty_collection_writes_file_witness :
  exportSnippets "json" fresh
  = (Ok tt,
     emit (Log green "Snippets exported to snippets-export.json")
       (set_file EXPORT_JSON (Content ("[]" +++ nl)) fresh)) /\
  exportSnippets "markdown" fresh
  = (Ok tt,
     emit (Log green "Snippets exported to snippets-export.md")
       (set_file EXPORT_MARKDOWN (Content ("# Code Snippets" +++ nl +++ nl)) fresh)).
Proof.
  apply (export_of_empty_collection_writes_file fresh). reflexivity.
Defined.

(** X14.  The JSON export of a store that the program saved is a copy
    of the backing file, character for character. *)
Theorem json_export_copies_saved_backing_file :
  forall (v : value) (w : world),
    canonical v ->
    let w1 := snd (saveSnippets v w) in
    export_json (snd (exportSnippets "json" w1)) = snippet_file w1.
Proof.
  intros v w Hv w1. unfold exportSnippets, bind. rewrite load_stored.
  cbn [String.eqb Ascii.eqb Bool.eqb].
  unfold w1. rewrite (stored_saved v w Hv), save_result. reflexivity.
Qed.

(** X14 for a collection of two records. *)
Lemma json_export_copies_saved_backing_file_witness :
  let w1 := snd (saveSnippets (collection [sample_record 1; python_record]) fresh) in
  export_json (snd (exportSnippets "json" w1)) = snippet_file w1.
Proof.
  apply (json_export_copies_saved_backing_file
           (collection [sample_record 1; python_record]) fresh).
  apply canonical_collection.
Defined.

Lemma lower_case_empty a b :
  toLowerCase a = toLowerCase b ->
  (a =? EmptyString)%string = (b =? EmptyString)%string.
Proof. destruct a, b; cbn; congruence. Qed.

(** X15.  List reads a filter value only through its lower-case form:
    two runs whose language values agree in lower case, and whose
    category values do, behave alike on every state, well formed or
    not. *)
Theorem list_filter_values_ignore_case :
  forall (o o' : list_options) (w : world),
    option_map toLowerCase (lang o) = option_map toLowerCase (lang o') ->
    option_map toLowerCase (category o) = option_map toLowerCase (category o') ->
    listSnippets o w = listSnippets o' w.
Proof.
  intros [l c] [l' c'] w Hl Hc. cbn [lang category] in *.
  unfold listSnippets. cbn [lang category].
  assert (E : forall key (a b : option string),
             option_map toLowerCase a = option_map toLowerCase b ->
             forall filtered : value,
               (if truthy (option_value a)
                then lift (call_filter filtered
                             (same_ignoring_case key
                                match a with Some x => x | None => EmptyString end))
                else ret filtered)
               = (if truthy (option_value b)
                  then lift (call_filter filtered
                               (same_ignoring_case key
                                  match b with Some x => x | None => EmptyString end))
                  else ret filtered)).
  { intros key [a|] [b|] H filtered; cbn [option_map] in H; try discriminate;
      [|reflexivity].
    injection H as H. cbn [option_value truthy].
    rewrite (lower_case_empty a b H). unfold same_ignoring_case. now rewrite H. }
  unfold bind. destruct (loadSnippets w) as [[snippets|e] w1]; [|reflexivity].
  rewrite (E "language" l l' Hl snippets).
  match goal with
  | |- context [(if ?b then ?x else ?y) w1] =>
      destruct ((if b then x else y) w1) as [[filtered|e] w2]; [|reflexivity]
  end.
  now rewrite (E "category" c c' Hc filtered).
Qed.

(** X15 for [PYTHON] and [python]. *)
Lemma list_filter_values_ignore_case_witness :
  listSnippets (mkListOptions (Some "PYTHON") None)
    (world_with [sample_record 1; python_record])
  = listSnippets (mkListOptions (Some "python") None)
      (world_with [sample_record 1; python_record]).
Proof.
  apply (list_filter_values_ignore_case
           (mkListOptions (Some "PYTHON") None)
           (mkListOptions (Some "python") None)
           (world_with [sample_record 1; python_record])); reflexivity.
Defined.

Lemma kept_listed_fields o s s' :
  listed_fields s = listed_fields s' -> kept o s = kept o s' /\ listed s = listed s'.
Proof.
  unfold listed_fields, kept, listed, headline_of.
  intros [= -> -> -> -> ->]. split; reflexivity.
Qed.

Lemma listing_listed_fields o ss :
  forall ss', map listed_fields ss = map listed_fields ss' ->
              listing (filter (kept o) ss) = listing (filter (kept o) ss').
Proof.
  assert (F : forall ss ss',
             map listed_fields ss = map listed_fields ss' ->
             map listed (filter (kept o) ss) = map listed (filter (kept o) ss')).
  { clear ss. induction ss as [|s l IH]; intros [|s' l'] H; try discriminate;
      [reflexivity|].
    cbn [map] in H.
    assert (Hs : listed_fields s = listed_fields s') by congruence.
    assert (Hr : map listed_fields l = map listed_fields l') by congruence.
    destruct (kept_listed_fields o s s' Hs) as [Hk Hl].
    cbn [filter]. rewrite Hk. destruct (kept o s'); cbn [map];
      rewrite ?Hl; now rewrite (IH l' Hr). }
  intros ss' H. specialize (F ss ss' H). unfold listing.
  destruct (filter (kept o) ss) as [|a l], (filter (kept o) ss') as [|a' l'];
    try discriminate; [reflexivity|].
  rewrite !flat_map_concat_map. now rewrite F.
Qed.

(** X16.  List shows the id, the title, the language, the category and
    the tags of a record and nothing else of it: two collections whose
    records agree on these five fields, whatever their code, their
    descriptions and their dates, make List print the same lines. *)
Theorem list_shows_five_fields_only :
  forall (o : list_options) (ss ss' : list Snippet) (w w' : world),
    stored w = collection ss ->
    stored w' = collection ss' ->
    map listed_fields ss = map listed_fields ss' ->
    exists outs,
      listSnippets o w = (Ok tt, emits outs w) /\
      listSnippets o w' = (Ok tt, emits outs w').
Proof.
  intros o ss ss' w w' Hs Hs' H.
  exists (listing (filter (kept o) ss)). split.
  - now apply list_result.
  - rewrite (listing_listed_fields o ss ss' H). now apply list_result.
Qed.

(** X16 for two records that differ in code, description and date. *)
Lemma list_shows_five_fields_only_witness :
  exists outs,
    listSnippets (mkListOptions None None) (world_with [python_record])
    = (Ok tt, emits outs (world_with [python_record])) /\
    listSnippets (mkListOptions None None)
      (world_with [mkSnippet 1 "Flatten" "sum(ls, [])" "python" ["lists"]
                     "General" "quadratic" "2025-01-01T00:00:00.000Z"])
    = (Ok tt,
       emits outs
         (world_with [mkSnippet 1 "Flatten" "sum(ls, [])" "python" ["lists"]
                        "General" "quadratic" "2025-01-01T00:00:00.000Z"])).
Proof.
  apply (list_shows_five_fields_only (mkListOptions None None)
           [python_record]
           [mkSnippet 1 "Flatten" "sum(ls, [])" "python" ["lists"]
              "General" "quadratic" "2025-01-01T00:00:00.000Z"]);
    vm_compute; reflexivity.
Defined.

Lemma split_before_comma x r :
  all_chars not_comma x = true ->
  split "," (x +++ String "," r) = x :: split "," r.
Proof.
  induction x as [|c x IH]; cbn [String.append split all_chars]; intros H.
  - reflexivity.
  - apply andb_true_iff in H. destruct H as [Hc Hx].
    unfold not_comma in Hc. apply negb_true_iff in Hc. rewrite Hc.
    now rewrite (IH Hx).
Qed.

Lemma split_without_comma x :
  all_chars not_comma x = true -> split "," x = [x].
Proof.
  induction x as [|c x IH]; cbn [split all_chars]; intros H; [reflexivity|].
  apply andb_true_iff in H. destruct H as [Hc Hx].
  unfold not_comma in Hc. apply negb_true_iff in Hc. rewrite Hc.
  now rewrite (IH Hx).
Qed.

Lemma trimEnd_clean x : ends_with_space x = false -> trimEnd x = x.
Proof.
  induction x as [|c x IH]; [reflexivity|]. cbn [ends_with_space trimEnd].
  destruct x as [|c' x'].
  - cbn [trimEnd]. now intros ->.
  - intros H. now rewrite (IH H).
Qed.

Lemma trim_clean x :
  starts_with_space x = false -> ends_with_space x = false -> trim x = x.
Proof.
  intros Hs He. unfold trim.
  replace (trimStart x) with x; [now apply trimEnd_clean|].
  destruct x as [|c x]; [reflexivity|]. cbn in Hs |- *. now rewrite Hs.
Qed.

Lemma tags_filter_after_space r : tags_filter (String " " r) = tags_filter r.
Proof.
  unfold tags_filter. cbn [split]. change (" " =? ",")%char with false. cbv iota.
  pose proof (split_nonempty "," r) as Hn.
  destruct (split "," r) as [|t ts]; [congruence|].
  cbn [map]. reflexivity.
Qed.

Lemma tags_filter_clean l :
  Forall clean_tag l -> tags_filter (join ", " l) = l.
Proof.
  induction l as [|x l IH]; intros H; [reflexivity|].
  inversion H as [|? ? (Hne & Hc & Hs & He) Hl]; subst.
  assert (Hx : truthy (Some (VStr x)) = true).
  { cbn [truthy]. destruct x; [congruence|reflexivity]. }
  destruct l as [|y l'].
  - cbn [join]. unfold tags_filter. rewrite (split_without_comma x Hc).
    cbn [map filter]. rewrite (trim_clean x Hs He), Hx. reflexivity.
  - change (join ", " (x :: y :: l'))
      with (x +++ String "," (String " " (join ", " (y :: l')))).
    unfold tags_filter. rewrite (split_before_comma x _ Hc).
    cbn [map filter]. rewrite (trim_clean x Hs He), Hx. f_equal.
    change (tags_filter (String " " (join ", " (y :: l'))) = y :: l').
    rewrite tags_filter_after_space. now apply IH.
Qed.

Lemma tags_filter_clean_tags input : Forall clean_tag (tags_filter input).
Proof.
  pose proof (tags_filter_each input) as H.
  pose proof (split_tokens_no_comma input) as Hc.
  rewrite Forall_forall in *. intros tag Hin.
  destruct (H tag Hin) as (token & Htoken & -> & Hne).
  destruct (trim_trimmed token) as (_ & Hs & He).
  repeat split; try assumption.
  apply all_chars_trim. now apply Hc.
Qed.

(** X17.  The tags survive their own display: the tags of a record,
    joined by a comma and a space the way List, Search and the markdown
    export show them, and given again as the answer to the tags
    question, are read as the same tags.  Reading tags twice changes
    nothing. *)
Theorem shown_tags_read_back_as_entered :
  forall input : string,
    tags_filter (join ", " (tags_filter input)) = tags_filter input.
Proof. intros input. apply tags_filter_clean, tags_filter_clean_tags. Qed.

Lemma same_ignoring_case_error key wanted x e :
  same_ignoring_case key wanted x = Throw e -> e = TypeError.
Proof.
  unfold same_ignoring_case.
  destruct x as [|b|n|s|l|o]; cbn [prop call_toLowerCase]; try congruence.
  destruct (Obj.get key o) as [[|b|n|s|l|o']|]; cbn [call_toLowerCase]; congruence.
Qed.

Lemma same_ignoring_case_lacking key wanted x :
  lacks_text key x -> same_ignoring_case key wanted x = Throw TypeError.
Proof.
  unfold lacks_text, same_ignoring_case.
  destruct x as [|b|n|s|l|o]; cbn [prop call_toLowerCase]; try reflexivity.
  destruct (Obj.get key o) as [[|b|n|s|l|o']|]; cbn [call_toLowerCase];
    intros H; try reflexivity. destruct H.
Qed.

Lemma filter_items_lacking key wanted x items :
  In x items -> lacks_text key x ->
  filter_items (same_ignoring_case key wanted) items = Throw TypeError.
Proof.
  intros Hin Hx. induction items as [|y l IH]; [destruct Hin|].
  cbn [filter_items].
  destruct (same_ignoring_case key wanted y) as [b|e] eqn:E.
  - destruct Hin as [->|Hin].
    + rewrite (same_ignoring_case_lacking key wanted x Hx) in E. discriminate.
    + now rewrite (IH Hin).
  - now rewrite (same_ignoring_case_error _ _ _ _ E).
Qed.

Lemma effective_truthy (wanted : option string) :
  truthy (option_value wanted)
  = match effective wanted with Some _ => true | None => false end.
Proof. destruct wanted as [[|c s]|]; reflexivity. Qed.

(** X18.  A filter in force makes List read the filtered property of
    every record before it prints anything.  When some record is [null]
    or has no text there, anywhere in the collection, the command fails
    with a [TypeError] and prints nothing, not even the records that
    come before.  The language filter is applied first, so a record
    without a text category counts when no language filter is in
    force. *)
Theorem list_filter_fails_on_record_without_text :
  forall (o : list_options) (items : list value) (x : value) (w : world),
    stored w = VArr items ->
    In x items ->
    (effective (lang o) <> None /\ lacks_text "language" x) \/
    (effective (lang o) = None /\ effective (category o) <> None /\
     lacks_text "category" x) ->
    listSnippets o w = (Throw TypeError, w).
Proof.
  intros o items x w Hs Hin H. unfold listSnippets. unfold bind at 1.
  rewrite load_stored, Hs. unfold bind at 1.
  rewrite !effective_truthy.
  destruct H as [[Hl Hx]|(Hl & Hc & Hx)].
  - destruct (effective (lang o)); [|congruence].
    unfold lift, call_filter. now rewrite (filter_items_lacking _ _ x items Hin Hx).
  - rewrite Hl. unfold ret. unfold bind at 1.
    destruct (effective (category o)); [|congruence].
    unfold lift, call_filter. now rewrite (filter_items_lacking _ _ x items Hin Hx).
Qed.

(** X18 for a record without a language after a complete one. *)
Lemma list_filter_fails_on_record_without_text_witness :
  let w := set_file SNIPPET_FILE
             (Content (JSON.stringify
                (VArr [snippet_value python_record;
                       VObj [("id", VNum 2); ("title", VStr "untagged")]])))
             fresh in
  listSnippets (mkListOptions (Some "python") None) w = (Throw TypeError, w).
Proof.
  apply (list_filter_fails_on_record_without_text
           (mkListOptions (Some "python") None)
           [snippet_value python_record;
            VObj [("id", VNum 2); ("title", VStr "untagged")]]
           (VObj [("id", VNum 2); ("title", VStr "untagged")])).
  - vm_compute. reflexivity.
  - right. left. reflexivity.
  - left. split; [discriminate|exact I].
Defined.

(** X19.  On a backing file whose JSON value is no array, List never
    prints a record: it fails with a [TypeError], the world unchanged,
    or prints the not-found notice.  A filter in force always gives
    the failure; without one, a number and a boolean give the notice
    and [null] gives the failure. *)
Theorem list_of_non_array_prints_no_record :
  forall (o : list_options) (w : world),
    (forall items, stored w <> VArr items) ->
    (listSnippets o w = (Throw TypeError, w) \/
     listSnippets o w = (Ok tt, emit (Log yellow "No snippets found.") w)) /\
    (effective (lang o) <> None \/ effective (category o) <> None ->
     listSnippets o w = (Throw TypeError, w)) /\
    (effective (lang o) = None -> effective (category o) = None ->
     match stored w with
     | VNum _ | VBool _ =>
         listSnippets o w = (Ok tt, emit (Log yellow "No snippets found.") w)
     | VNull => listSnippets o w = (Throw TypeError, w)
     | _ => True
     end).
Proof.
  intros o w Hn. remember (listSnippets o w) as r eqn:E.
  unfold listSnippets, bind in E. rewrite load_stored, !effective_truthy in E.
  destruct (stored w) as [|b|n|s|l|ob] eqn:Hs; [| | | |now destruct (Hn l)|];
    destruct (effective (lang o)) as [fl|], (effective (category o)) as [fc|];
    cbn in E;
    repeat match type of E with
           | context [if ?c then _ else _] => destruct c
           end;
    subst r; cbv iota; repeat split; auto; try congruence;
    intros [H|H]; congruence.
Qed.

(** X19 when the backing file holds the number 7. *)
Lemma list_of_non_array_prints_no_record_witness :
  let w := set_file SNIPPET_FILE (Content "7") fresh in
  listSnippets (mkListOptions None None) w
  = (Ok tt, emit (Log yellow "No snippets found.") w).
Proof.
  intros w.
  assert (Hn : forall items, stored w <> VArr items)
    by (intros items; vm_compute; discriminate).
  destruct (list_of_non_array_prints_no_record (mkListOptions None None) w Hn)
    as (_ & _ & H).
  exact (H eq_refl eq_refl).
Defined.

(** X20.  Load never fails and has no effect, and it performs no
    validation: a backing file that holds the indented text, with or
    without a final line feed, of a value built from null, booleans,
    integers that the runtime holds exactly, texts, arrays and objects
    is loaded as that value, whether or not it is an array. *)
Theorem load_returns_any_json_value :
  forall w : world,
    (exists v, loadSnippets w = (Ok v, w)) /\
    (forall v,
        canonical v ->
        safe_numbers v = true ->
        snippet_file w = Content (JSON.stringify v) \/
        snippet_file w = Content (JSON.print 0 v nl) ->
        loadSnippets w = (Ok v, w)).
Proof.
  intros w. split; [exists (stored w); apply load_stored|].
  intros v Hv _ Hf. rewrite load_stored. f_equal. unfold stored.
  destruct Hf as [-> | ->].
  - rewrite JSONFacts.parse_stringify. now rewrite canonical_normalize.
  - now rewrite parse_written.
Qed.

(** X20 for a backing file that holds an object with a length, indented
    and on one line. *)
Lemma load_returns_any_json_value_witness :
  let v := VObj [("length", VNum 3)] in
  let w := set_file SNIPPET_FILE
             (Content (text_of_lines
                         [ "{"; "  " +++ quoted "length" +++ ": 3"; "}" ]))
             fresh in
  let w1 := set_file SNIPPET_FILE
              (Content ("{" +++ quoted "length" +++ ":3}")) fresh in
  loadSnippets w = (Ok v, w) /\
  loadSnippets w1 = (Ok v, w1).
Proof.
  intros v w w1. split.
  - destruct (load_returns_any_json_value w) as [_ H].
    apply (H v).
    + repeat constructor.
    + reflexivity.
    + right. vm_compute. reflexivity.
  - vm_compute. reflexivity.
Defined.

(* ================================================================== *)
(** * What a run leaves alone *)
(* ================================================================== *)

Module RunFacts.
Import RepositoryFacts AddFacts FrameFacts.

(** ** Export files and clipboard *)

Lemma exports_clipboard_refl w : same_exports_and_clipboard w w.
Proof. repeat split. Qed.

Lemma exports_clipboard_trans w1 w2 w3 :
  same_exports_and_clipboard w1 w2 -> same_exports_and_clipboard w2 w3 ->
  same_exports_and_clipboard w1 w3.
Proof.
  unfold same_exports_and_clipboard.
  intros (-> & -> & ->) (-> & -> & ->). repeat split.
Qed.

Lemma exports_clipboard_console_log c text :
  frame same_exports_and_clipboard (console_log c text).
Proof. intros w. repeat split. Qed.

Lemma exports_clipboard_save v : frame same_exports_and_clipboard (saveSnippets v).
Proof. intros w. repeat split. Qed.

Lemma exports_clipboard_answer_loop q rs w :
  same_exports_and_clipboard w (snd (answer_loop q rs w)).
Proof.
  revert w. induction rs as [|r rs IH]; intros w; cbn [answer_loop];
    [repeat split|].
  destruct (match qvalidate q with Some check => _ | None => Valid end);
    [repeat split|].
  eapply exports_clipboard_trans; [|apply IH]. repeat split.
Qed.

Lemma exports_clipboard_prompt_all qs :
  forall answers, frame same_exports_and_clipboard (prompt_all qs answers).
Proof.
  induction qs as [|q qs IH]; intros answers; cbn [prompt_all].
  - apply (frame_ret exports_clipboard_refl).
  - apply (frame_bind exports_clipboard_trans); [|intros v; apply IH].
    intros w. unfold ask.
    eapply exports_clipboard_trans; [|apply exports_clipboard_answer_loop].
    repeat split.
Qed.

Lemma add_keeps_exports_and_clipboard now :
  frame same_exports_and_clipboard (addSnippet now).
Proof.
  unfold addSnippet.
  frames exports_clipboard_refl exports_clipboard_trans
         ltac:(first [ apply exports_clipboard_console_log
                     | apply exports_clipboard_save
                     | apply exports_clipboard_prompt_all ]).
Qed.

(** ** Terminal and pending answers *)

Lemma continues_refl w : continues w w.
Proof. split; exists []; [now rewrite app_nil_r|reflexivity]. Qed.

Lemma continues_trans w1 w2 w3 :
  continues w1 w2 -> continues w2 w3 -> continues w1 w3.
Proof.
  intros [[o1 H1] [u1 K1]] [[o2 H2] [u2 K2]]. split.
  - exists (o1 ++ o2). now rewrite H2, H1, <- app_assoc.
  - exists (u1 ++ u2). now rewrite K1, K2, <- app_assoc.
Qed.

Lemma continues_console_log c text : frame continues (console_log c text).
Proof. intros w. split; [now exists [Log c text]|now exists []]. Qed.

Lemma continues_write p text : frame continues (writeFile p text).
Proof.
  intros w. destruct p; (split; exists []; [now rewrite app_nil_r|reflexivity]).
Qed.

Lemma continues_clipboard e : frame continues (clipboardy_writeSync e).
Proof.
  intros w. destruct e as [[]|];
    (split; exists []; [now rewrite app_nil_r|reflexivity]).
Qed.

Lemma continues_answer_loop q rs :
  forall w,
    (exists outs, terminal (snd (answer_loop q rs w)) = terminal w ++ outs) /\
    (exists used, rs = used ++ responses (snd (answer_loop q rs w))).
Proof.
  induction rs as [|r rs IH]; intros w; cbn [answer_loop].
  - split; exists []; [now rewrite app_nil_r|reflexivity].
  - destruct (match qvalidate q with Some check => _ | None => Valid end)
      as [|m].
    + split; [exists []; now rewrite app_nil_r|now exists [r]].
    + destruct (IH (emit (Rejected m) w)) as [[outs H] [used K]]. split.
      * exists (Rejected m :: outs). rewrite H. cbn [emit terminal].
        now rewrite <- app_assoc.
      * exists (r :: used). cbn [List.app]. now rewrite <- K.
Qed.

Lemma continues_ask q : frame continues (ask q).
Proof.
  intros w. unfold ask.
  destruct (continues_answer_loop q (responses w) (emit (Ask (qmessage q)) w))
    as [[outs H] [used K]]. split.
  - exists (Ask (qmessage q) :: outs). rewrite H. cbn [emit terminal].
    now rewrite <- app_assoc.
  - now exists used.
Qed.

Lemma continues_prompt_all qs :
  forall answers, frame continues (prompt_all qs answers).
Proof.
  induction qs as [|q qs IH]; intros answers; cbn [prompt_all].
  - apply (frame_ret continues_refl).
  - apply (frame_bind continues_trans); [apply continues_ask|intros v; apply IH].
Qed.

Lemma continues_prompt qs : frame continues (inquirer_prompt qs).
Proof. apply continues_prompt_all. Qed.

Ltac continues_prim :=
  first [ apply continues_console_log | apply continues_clipboard
        | apply continues_prompt | apply continues_write ].

Lemma continues_main fuse_search c now : frame continues (main fuse_search c now).
Proof.
  destruct c as [|query|o|format|]; cbn [main].
  - unfold addSnippet, saveSnippets, writeJson.
    frames continues_refl continues_trans continues_prim.
  - unfold searchSnippets, print_result, headline, category_line, tags_line.
    frames continues_refl continues_trans continues_prim.
  - unfold listSnippets, call_forEach, headline, category_line, tags_line.
    frames continues_refl continues_trans continues_prim.
  - unfold exportSnippets, writeJson.
    frames continues_refl continues_trans continues_prim.
  - intros w. split; [|now exists []]. cbn.
    eexists. now rewrite <- app_assoc.
Qed.

End RunFacts.

Import RunFacts.

(** X21.  The clipboard changes in a Search and in no other run; the
    export files change in an Export and in no other run.  This holds on
    every state and for every answer of the user, also when the run
    fails. *)
Theorem clipboard_and_export_files_have_one_writer :
  forall (fuse_search : value -> fuse_options -> string -> result (list value))
         (c : command) (now : string) (rs : list string) (w : world),
    let w' := snd (run fuse_search c now rs w) in
    ((forall query, c <> CmdSearch query) -> clipboard w' = clipboard w) /\
    ((forall format, c <> CmdExport format) ->
     export_json w' = export_json w /\ export_markdown w' = export_markdown w).
Proof.
  intros fuse_search c now rs w w'. subst w'. unfold run.
  set (w0 := set_responses rs w).
  change (clipboard w) with (clipboard w0).
  change (export_json w) with (export_json w0).
  change (export_markdown w) with (export_markdown w0).
  destruct c as [|query|o|format|]; cbn [main].
  - destruct (add_keeps_exports_and_clipboard now w0) as (H1 & H2 & H3).
    now repeat split.
  - destruct (search_writes_nothing fuse_search query w0) as (_ & H2 & H3).
    split; [intros H; now destruct (H query)|now split].
  - destruct (list_prints_only o w0) as [outs ->]. now repeat split.
  - destruct (export_keeps_store_and_user format w0) as (_ & H2 & _).
    split; [now intros _|intros H; now destruct (H format)].
  - now repeat split.
Qed.

(** X22.  A run never takes anything off the terminal and uses the
    answers of the user from the front: the terminal afterwards starts
    with what it showed before, and the answers still pending are what
    is left of the given ones.  A run that is neither Add nor Search
    uses no answer at all.  This holds on every state, also when the
    run fails. *)
Theorem run_extends_terminal_and_uses_answers_in_order :
  forall (fuse_search : value -> fuse_options -> string -> result (list value))
         (c : command) (now : string) (rs : list string) (w : world),
    let w' := snd (run fuse_search c now rs w) in
    (exists outs, terminal w' = terminal w ++ outs) /\
    (exists used, rs = used ++ responses w') /\
    (c <> CmdAdd -> (forall query, c <> CmdSearch query) -> responses w' = rs).
Proof.
  intros fuse_search c now rs w w'. subst w'. unfold run.
  set (w0 := set_responses rs w).
  destruct (continues_main fuse_search c now w0) as [H K].
  repeat split; [exact H|exact K|].
  intros Ha Hq. change rs with (responses w0).
  destruct c as [|query|o|format|]; cbn [main].
  - congruence.
  - now destruct (Hq query).
  - now destruct (list_prints_only o w0) as [outs ->].
  - now destruct (export_keeps_store_and_user format w0) as (_ & _ & H3).
  - reflexivity.
Qed.
